(** * Engine.js: the per-tick driver of the physics pipeline

    A shallow embedding of [src/core/Engine.js] (Engine.create, Engine.run,
    Engine.update, Engine.merge, Engine.clear and the private event
    triggers) and the properties of the tick that follow from it.

    Engine.js is an orchestrator: every phase of the pipeline is a call to a
    collaborator module (Body, Constraint, Grid, Detector, Manager, Sleeping,
    Resolver, Metrics, Events, Render, Mouse).  Those modules are outside
    Engine.js.  A collaborator call is therefore modelled as
      - an entry in the trace of the tick, with the arguments the engine
        computes for it, and
      - an arbitrary transformation [sem c] of the collaborator-owned object
        graph (world, bodies, constraints, pairs, grid, metrics, mouse).
    The configuration the engine itself reads (iteration counts, the sleeping
    switch, time scale, timing, broadphase selection) is kept in a typed record;
    collaborators and event handlers are taken not to write it.  A second
    rendering of Engine.update, [update_writing], lets every call write the
    engine and reads each value where the code reads it: it gives the same
    calls as long as the calls leave alone what the tick reads.

    JavaScript numbers are modelled as rationals [Q] (finite, no rounding);
    iteration counts as integers [Z].  A quotient by zero ([Infinity],
    [NaN]) has no rendering: statements about the correction of a frame
    assume a stored delta other than zero. *)

From Stdlib Require Import QArith Qminmax ZArith String Lia.
From stdpp Require Import base numbers list sets sorting strings.

Local Open Scope Z_scope.

(** ** Module-level constants (Engine.js lines 16-18) *)

Definition _fps : Q := 60.
Definition _deltaSampleSize : nat := 8.
Definition _delta : Q := 1000 / _fps.

(** ** The engine as the tick reads it *)

Record Timing := {
  fps : Q;
  timestamp : Q;
  delta : Q;
  correction : Q;
  deltaMin : Q;
  deltaMax : Q
}.

Inductive Controller := Grid | CustomController (id : nat).
Inductive Detector := Detector_collisions | Detector_bruteForce | CustomDetector (id : nat).

Record BroadphaseEntry := {
  controller : option Controller;
  detector : Detector
}.

Inductive BroadphaseKey := key_grid | key_bruteForce.

Record Broadphase := {
  current : BroadphaseKey;
  grid : BroadphaseEntry;
  bruteForce : BroadphaseEntry
}.

(** [engine.broadphase[engine.broadphase.current]] *)
Definition broadphase_current (b : Broadphase) : BroadphaseEntry :=
  match current b with
  | key_grid => grid b
  | key_bruteForce => bruteForce b
  end.

Record Engine := {
  enabled : bool;
  positionIterations : Z;
  velocityIterations : Z;
  constraintIterations : Z;
  enableSleeping : bool;
  timeScale : Q;
  timing : Timing;
  render_options_enabled : bool;
  broadphase : Broadphase
}.

Definition set_timing (e : Engine) (t : Timing) : Engine :=
  {| enabled := enabled e;
     positionIterations := positionIterations e;
     velocityIterations := velocityIterations e;
     constraintIterations := constraintIterations e;
     enableSleeping := enableSleeping e;
     timeScale := timeScale e;
     timing := t;
     render_options_enabled := render_options_enabled e;
     broadphase := broadphase e |}.

(** ** Collaborator calls and the trace of a tick *)

Definition PairId := nat.

(** What the detector is handed as [broadphasePairs]. *)
Inductive BroadphasePairs := instance_pairsList | world_bodies.

(** The event object passed to [Events.trigger]. *)
Inductive EventObject :=
| TickEvent (timestamp : Q)
| PairsEvent (pairs : list PairId)
| MouseEvent.

Inductive Call :=
| Metrics_reset
| Sleeping_update
| Body_applyGravityAll
| MouseConstraint_update
| Body_updateAll (deltaTime correction : Q)
| Constraint_updateAll
| Controller_update (c : Controller)
| Detector_apply (d : Detector) (broadphasePairs : BroadphasePairs)
| Manager_updatePairs (timestamp : Q)
| Manager_removeOldPairs (timestamp : Q)
| Sleeping_afterCollisions
| Resolver_preSolveVelocity
| Resolver_solveVelocity
| Resolver_solvePosition
| Resolver_postSolvePosition
| Metrics_update
| Body_resetForcesAll
| Events_trigger (names : string) (event : EventObject)
| Render_world
| Mouse_clearSourceEvents.

(** The trace records collaborator calls, the request for the next animation
    frame, and the entry to and return from [Engine.update]. *)
Inductive Event :=
| Invoke (c : Call)
| RequestAnimationFrame
| Enter_update (delta correction : Q)
| Return_update.

(** Closure variables of [Engine.run] (lines 96-101). *)
Record RunLocals := {
  loc_delta : option Q;
  loc_correction : option Q;
  counterTimestamp : Q;
  frameCounter : Z;
  deltaHistory : list Q
}.

Definition run_init : RunLocals :=
  {| loc_delta := None; loc_correction := None;
     counterTimestamp := 0; frameCounter := 0; deltaHistory := [] |}.

(** ** JavaScript helpers *)

(** [x || d] on numbers: [0] is falsy. *)
Definition num_or (x d : Q) : Q := if Qeq_bool x 0 then d else x.

(** [timestamp || 0] for the argument of the frame callback, which is absent
    on the first, direct call. *)
Definition frame_timestamp (timestamp : option Q) : Q :=
  match timestamp with Some t => num_or t 0 | None => 0%Q end.

(** [a < b] and [a >= b] on numbers. *)
Definition Qlt_bool (a b : Q) : bool := negb (Qle_bool b a).
Definition Qge_bool (a b : Q) : bool := Qle_bool b a.

(** [arr.slice(-n)]: the last [n] elements. *)
Definition slice_last {A} (n : nat) (l : list A) : list A :=
  drop (length l - n) l.

(** [Math.min.apply(null, arr)] on a non-empty array.  (On the empty array
    JavaScript answers [Infinity]; the engine only applies it to a history it
    has just pushed to.) *)
Definition Math_min (l : list Q) : Q :=
  match l with
  | [] => 0
  | x :: xs => fold_left Qmin xs x
  end.

(** ** The state the tick runs in, and its monad *)

Section Collaborators.

(** The collaborator-owned object graph and the effect of each call on it. *)
Context {H : Type}.
Variable sem : Call -> H -> H.

(** [engine.pairs.collisionStart] and its siblings, filled by the Manager. *)
Variables collisionStart collisionActive collisionEnd : H -> list PairId.

(** [engine.input.mouse.sourceEvents.*], as truth values. *)
Variables mousemove mousedown mouseup : H -> bool.

Record State := {
  eng : Engine;
  loc : RunLocals;
  heap : H
}.

Definition M (A : Type) : Type := State -> A * State * list Event.

Definition ret {A} (a : A) : M A := fun s => (a, s, []).

Definition bind {A B} (m : M A) (k : A -> M B) : M B :=
  fun s =>
    let '(a, s1, t1) := m s in
    let '(b, s2, t2) := k a s1 in
    (b, s2, t1 ++ t2).

Notation "x <- m ;; k" := (bind m (fun x => k))
  (at level 100, m at next level, right associativity).
Notation "m ;; k" := (bind m (fun _ => k))
  (at level 100, right associativity).

Definition get : M State := fun s => (s, s, []).
Definition gets {A} (f : State -> A) : M A := fun s => (f s, s, []).
Definition put_engine (e : Engine) : M unit :=
  fun s => (tt, {| eng := e; loc := loc s; heap := heap s |}, []).
Definition put_locals (l : RunLocals) : M unit :=
  fun s => (tt, {| eng := eng s; loc := l; heap := heap s |}, []).

(** A collaborator call: logged, and applied to the object graph. *)
Definition call (c : Call) : M unit :=
  fun s => (tt, {| eng := eng s; loc := loc s; heap := sem c (heap s) |},
            [Invoke c]).

(** An entry of the trace with no effect on engine or world. *)
Definition log (ev : Event) : M unit := fun s => (tt, s, [ev]).

Definition when (b : bool) (m : M unit) : M unit := if b then m else ret tt.

(** [for (i = 0; i < n; i++) body], for a body that leaves [n] alone: the
    body runs once for each [i] in [0, n). *)
Fixpoint times (k : nat) (body : M unit) : M unit :=
  match k with
  | O => ret tt
  | S k' => body ;; times k' body
  end.

Definition for_ (n : Z) (body : M unit) : M unit := times (Z.to_nat n) body.

Definition result_state {A} (m : M A) (s : State) : State := (m s).1.2.
Definition events {A} (m : M A) (s : State) : list Event := (m s).2.

(** ** Engine.update (lines 236-297) *)

Definition update (delta correction : Q) : M unit :=
  log (Enter_update delta correction) ;;
  engine <- gets eng ;;
  let broadphase := broadphase_current (broadphase engine) in
  call Metrics_reset ;;
  when (enableSleeping engine) (call Sleeping_update) ;;
  call Body_applyGravityAll ;;
  call MouseConstraint_update ;;
  call (Body_updateAll (delta * timeScale engine) correction) ;;
  for_ (constraintIterations engine) (call Constraint_updateAll) ;;
  broadphasePairs <-
    match controller broadphase with
    | Some c => call (Controller_update c) ;; ret instance_pairsList
    | None => ret world_bodies
    end ;;
  call (Detector_apply (detector broadphase) broadphasePairs) ;;
  timestamp <- gets (fun s => timestamp (timing (eng s))) ;;
  call (Manager_updatePairs timestamp) ;;
  call (Manager_removeOldPairs timestamp) ;;
  when (enableSleeping engine) (call Sleeping_afterCollisions) ;;
  call Resolver_preSolveVelocity ;;
  for_ (velocityIterations engine) (call Resolver_solveVelocity) ;;
  for_ (positionIterations engine) (call Resolver_solvePosition) ;;
  call Resolver_postSolvePosition ;;
  call Metrics_update ;;
  call Body_resetForcesAll ;;
  log Return_update.

(** ** _triggerCollisionEvents (lines 419-469) *)

Definition _triggerCollisionEvents : M unit :=
  pairs <- gets heap ;;
  when (0 <? length (collisionStart pairs))%nat
    (call (Events_trigger "collisionStart" (PairsEvent (collisionStart pairs)))) ;;
  pairs <- gets heap ;;
  when (0 <? length (collisionActive pairs))%nat
    (call (Events_trigger "collisionActive" (PairsEvent (collisionActive pairs)))) ;;
  pairs <- gets heap ;;
  when (0 <? length (collisionEnd pairs))%nat
    (call (Events_trigger "collisionEnd" (PairsEvent (collisionEnd pairs)))).

(** ** _triggerMouseEvents (lines 360-411) *)

Definition _triggerMouseEvents : M unit :=
  mouse <- gets heap ;;
  when (mousemove mouse) (call (Events_trigger "mousemove" MouseEvent)) ;;
  mouse <- gets heap ;;
  when (mousedown mouse) (call (Events_trigger "mousedown" MouseEvent)) ;;
  mouse <- gets heap ;;
  when (mouseup mouse) (call (Events_trigger "mouseup" MouseEvent)) ;;
  call Mouse_clearSourceEvents.

(** ** Engine.run (lines 95-226) *)

(** Lines 128-137: the delta of the frame from the raw frame deltas. *)
Definition raw_delta (t : Timing) (now : Q) : Q :=
  num_or (now - timestamp t)%Q _delta.

Definition limit_delta (t : Timing) (d : Q) : Q :=
  let d := if Qlt_bool d (deltaMin t) then deltaMin t else d in
  if Qlt_bool (deltaMax t) d then deltaMax t else d.

(** Lines 128-153: filter and limit delta, derive the correction, store the
    timing and advance the fps counter.  Returns the [delta]/[correction]
    pair of the frame.  The correction is a quotient of rationals: it
    renders line 140 for a stored [timing.delta] other than [0], where
    JavaScript has no [Infinity] or [NaN] to give. *)
Definition update_timing (now : Q) : M (Q * Q) :=
  s <- get ;;
  let t := timing (eng s) in
  let l := loc s in
  let history := slice_last _deltaSampleSize (deltaHistory l ++ [raw_delta t now]) in
  let d := limit_delta t (Math_min history) in
  let c := (d / delta t)%Q in
  let counter := frameCounter l + 1 in
  let elapsed := (now - counterTimestamp l)%Q in
  let second := Qge_bool elapsed 1000 in
  put_engine (set_timing (eng s)
    {| fps := if second then (inject_Z counter * (elapsed / 1000))%Q else fps t;
       timestamp := now;
       delta := d;
       correction := c;
       deltaMin := deltaMin t;
       deltaMax := deltaMax t |}) ;;
  put_locals
    {| loc_delta := Some d;
       loc_correction := Some c;
       counterTimestamp := if second then now else counterTimestamp l;
       frameCounter := if second then 0 else counter;
       deltaHistory := history |} ;;
  ret (d, c).

(** The frame callback [render(timestamp)] (lines 103-225).  The browser
    passes no timestamp on the first, direct call. *)
Definition render (timestamp : option Q) : M unit :=
  log RequestAnimationFrame ;;
  engine <- gets eng ;;
  if negb (enabled engine) then ret tt else
  let now := frame_timestamp timestamp in
  let event := TickEvent now in
  call (Events_trigger "beforeTick" event) ;;
  dc <- update_timing now ;;
  call (Events_trigger "tick beforeUpdate" event) ;;
  update dc.1 dc.2 ;;
  _triggerCollisionEvents ;;
  _triggerMouseEvents ;;
  call (Events_trigger "afterUpdate beforeRender" event) ;;
  engine <- gets eng ;;
  when (render_options_enabled engine) (call Render_world) ;;
  call (Events_trigger "afterTick afterRender" event).

(** The frames of a run, one after the other, each with the argument the
    callback receives. *)
Fixpoint frames (timestamps : list (option Q)) : M unit :=
  match timestamps with
  | [] => ret tt
  | t :: ts => render t ;; frames ts
  end.

(** [Engine.run(engine)]: the closure is set up and [render] is called
    directly, without a timestamp; the browser then delivers the frames it
    was asked for, each with its timestamp. *)
Definition run (timestamps : list Q) : M unit :=
  put_locals run_init ;;
  frames (None :: (Some <$> timestamps)).

End Collaborators.

(** ** Engine.create (lines 31-88) *)

(** Objects made by collaborators are symbolic terms: nothing is read from
    them here but the canvas and the controller of a render. *)
Definition Canvas := nat.

Record RenderObj := {
  render_controller : bool;
  render_canvas : Canvas;
  options_enabled : bool
}.

Inductive MouseObj :=
| Mouse_given (id : nat)
| Mouse_create (canvas : Canvas).

Inductive MouseConstraintObj :=
| MouseConstraint_given (id : nat)
| MouseConstraint_create (mouse : MouseObj).

Inductive WorldObj :=
| World_given (id : nat)
| World_create
| World_create_from (options : WorldObj)
| World_addComposite (world : WorldObj) (composite : MouseConstraintObj).

Inductive MetricsObj :=
| Metrics_given (id : nat)
| Metrics_create.

Record InputObj := { mouse : option MouseObj }.

(** The engine as a JavaScript object: a property that is absent reads
    [undefined], here [None]. *)
Module Obj.

Record Pairs := {
  table : list PairId;
  list : Datatypes.list PairId;
  collisionStart : Datatypes.list PairId;
  collisionActive : Datatypes.list PairId;
  collisionEnd : Datatypes.list PairId
}.

Record t := {
  enabled : option bool;
  positionIterations : option Z;
  velocityIterations : option Z;
  constraintIterations : option Z;
  pairs : option Pairs;
  enableSleeping : option bool;
  timeScale : option Q;
  input : option InputObj;
  events : option (Datatypes.list nat);
  timing : option Timing;
  render : option RenderObj;
  world : option WorldObj;
  metrics : option MetricsObj;
  mouseConstraint : option MouseConstraintObj;
  broadphase : option Broadphase
}.

End Obj.

(** The [timing] of the defaults (lines 48-55). *)
Definition default_timing : Timing :=
  {| fps := _fps;
     timestamp := 0;
     delta := _delta;
     correction := 1;
     deltaMin := 1000 / _fps;
     deltaMax := 1000 / (_fps * (1 # 2)) |}.

(** The [defaults] literal (lines 32-56). *)
Definition defaults : Obj.t :=
  {| Obj.enabled := Some true;
     Obj.positionIterations := Some 6;
     Obj.velocityIterations := Some 4;
     Obj.constraintIterations := Some 1;
     Obj.pairs := Some {| Obj.table := []; Obj.list := [];
                          Obj.collisionStart := [];
                          Obj.collisionActive := [];
                          Obj.collisionEnd := [] |};
     Obj.enableSleeping := Some false;
     Obj.timeScale := Some 1%Q;
     Obj.input := Some {| mouse := None |};
     Obj.events := Some [];
     Obj.timing := Some default_timing;
     Obj.render := None;
     Obj.world := None;
     Obj.metrics := None;
     Obj.mouseConstraint := None;
     Obj.broadphase := None |}.

(** The broadphase literal (lines 75-85). *)
Definition default_broadphase : Broadphase :=
  {| current := key_grid;
     grid := {| controller := Some Grid; detector := Detector_collisions |};
     bruteForce := {| controller := None; detector := Detector_bruteForce |} |}.

(** The first argument of [Engine.create]: a DOM element (what
    [Common.isElement] accepts), some other object, or nothing. *)
Inductive JsArg :=
| HTMLElement (id : nat)
| PlainObject (o : Obj.t)
| Undefined.

Definition isElement (a : JsArg) : bool :=
  match a with HTMLElement _ => true | _ => false end.

Inductive Result (A : Type) :=
| Ok (a : A)
| TypeError.
Arguments Ok {A} a.
Arguments TypeError {A}.

(** [element.appendChild(canvas)] *)
Inductive DomEffect := appendChild (element : nat) (canvas : Canvas).

Section Creation.

(** [Common.extend] and [Render.create] are collaborators. *)
Variable extend : Obj.t -> option Obj.t -> Obj.t.
Variable Render_create : option RenderObj -> RenderObj.

(** Lines 61-87, on the object chosen as the engine. *)
Definition complete (element : JsArg) (engine : Obj.t)
  : Result (Obj.t * Datatypes.list DomEffect) :=
  let '(render, created) :=
    match Obj.render engine with
    | None => (Render_create None, true)
    | Some r =>
        if render_controller r then (r, false)
        else (Render_create (Some r), true)
    end in
  let dom :=
    match element with
    | HTMLElement el =>
        if created then [appendChild el (render_canvas render)] else []
    | _ => []
    end in
  let world :=
    match Obj.world engine with
    | None => World_create
    | Some w => World_create_from w
    end in
  let metrics := default Metrics_create (Obj.metrics engine) in
  match Obj.input engine with
  | None => TypeError
  | Some input =>
      let mouse_ := default (Mouse_create (render_canvas render)) (mouse input) in
      let mouseConstraint :=
        default (MouseConstraint_create mouse_) (Obj.mouseConstraint engine) in
      Ok ({| Obj.enabled := Obj.enabled engine;
             Obj.positionIterations := Obj.positionIterations engine;
             Obj.velocityIterations := Obj.velocityIterations engine;
             Obj.constraintIterations := Obj.constraintIterations engine;
             Obj.pairs := Obj.pairs engine;
             Obj.enableSleeping := Obj.enableSleeping engine;
             Obj.timeScale := Obj.timeScale engine;
             Obj.input := Some {| mouse := Some mouse_ |};
             Obj.events := Obj.events engine;
             Obj.timing := Obj.timing engine;
             Obj.render := Some render;
             Obj.world := Some (World_addComposite world mouseConstraint);
             Obj.metrics := Some metrics;
             Obj.mouseConstraint := Some mouseConstraint;
             Obj.broadphase :=
               Some (default default_broadphase (Obj.broadphase engine)) |},
          dom)
  end.

Definition create (element : JsArg) (options : option Obj.t)
  : Result (Obj.t * Datatypes.list DomEffect) :=
  let engine := extend defaults options in
  if isElement element then complete element engine
  else
    match element with
    | PlainObject o => complete element o
    | _ => TypeError
    end.

End Creation.

(** Own properties of [source] override those of [obj]: the behaviour of
    [Common.extend] on the properties the engine configuration has. *)
Definition Common_extend (obj : Obj.t) (source : option Obj.t) : Obj.t :=
  match source with
  | None => obj
  | Some o =>
      let pick {A} (f : Obj.t -> option A) : option A :=
        match f o with Some v => Some v | None => f obj end in
      {| Obj.enabled := pick Obj.enabled;
         Obj.positionIterations := pick Obj.positionIterations;
         Obj.velocityIterations := pick Obj.velocityIterations;
         Obj.constraintIterations := pick Obj.constraintIterations;
         Obj.pairs := pick Obj.pairs;
         Obj.enableSleeping := pick Obj.enableSleeping;
         Obj.timeScale := pick Obj.timeScale;
         Obj.input := pick Obj.input;
         Obj.events := pick Obj.events;
         Obj.timing := pick Obj.timing;
         Obj.render := pick Obj.render;
         Obj.world := pick Obj.world;
         Obj.metrics := pick Obj.metrics;
         Obj.mouseConstraint := pick Obj.mouseConstraint;
         Obj.broadphase := pick Obj.broadphase |}
  end.

(** ** Vocabulary for statements about traces *)

#[global] Instance Q_eq_dec : EqDecision Q := ltac:(solve_decision).
#[global] Instance Controller_eq_dec : EqDecision Controller := ltac:(solve_decision).
#[global] Instance Detector_eq_dec : EqDecision Detector := ltac:(solve_decision).
#[global] Instance BroadphasePairs_eq_dec : EqDecision BroadphasePairs := ltac:(solve_decision).
#[global] Instance EventObject_eq_dec : EqDecision EventObject := ltac:(solve_decision).
#[global] Instance Call_eq_dec : EqDecision Call := ltac:(solve_decision).
#[global] Instance Event_eq_dec : EqDecision Event := ltac:(solve_decision).

(** Every [P]-entry of the trace comes before every [Q]-entry. *)
Definition precedes (P Q : Event -> Prop) (t : list Event) : Prop :=
  forall i j a b,
    t !! i = Some a -> t !! j = Some b -> P a -> Q b -> (i < j)%nat.

(** How often a call occurs in a trace. *)
Definition occurrences (c : Call) (t : list Event) : nat :=
  length (filter (eq (Invoke c)) t).

Definition call_of (c : Call) : Event -> Prop := fun ev => ev = Invoke c.

(** The calls of the body of [Engine.update], in program order. *)
Definition update_calls (e : Engine) (delta correction : Q) : list Call :=
  let b := broadphase_current (broadphase e) in
  [Metrics_reset]
  ++ (if enableSleeping e then [Sleeping_update] else [])
  ++ [Body_applyGravityAll; MouseConstraint_update;
      Body_updateAll (delta * timeScale e) correction]
  ++ replicate (Z.to_nat (constraintIterations e)) Constraint_updateAll
  ++ match controller b with
     | Some c => [Controller_update c; Detector_apply (detector b) instance_pairsList]
     | None => [Detector_apply (detector b) world_bodies]
     end
  ++ [Manager_updatePairs (timestamp (timing e));
      Manager_removeOldPairs (timestamp (timing e))]
  ++ (if enableSleeping e then [Sleeping_afterCollisions] else [])
  ++ [Resolver_preSolveVelocity]
  ++ replicate (Z.to_nat (velocityIterations e)) Resolver_solveVelocity
  ++ replicate (Z.to_nat (positionIterations e)) Resolver_solvePosition
  ++ [Resolver_postSolvePosition; Metrics_update; Body_resetForcesAll].

Definition update_events (e : Engine) (delta correction : Q) : list Event :=
  Enter_update delta correction
  :: (Invoke <$> update_calls e delta correction) ++ [Return_update].

(** The object graph after a sequence of collaborator calls. *)
Definition apply_calls {H} (sem : Call -> H -> H) (cs : list Call) (h : H) : H :=
  foldl (fun h c => sem c h) h cs.

(** [Events.trigger] calls, and those of the three collision events. *)
Definition trigger (ev : Event) : Prop :=
  exists names o, ev = Invoke (Events_trigger names o).

Definition collision_trigger (ev : Event) : Prop :=
  exists o, ev = Invoke (Events_trigger "collisionStart" o)
         \/ ev = Invoke (Events_trigger "collisionActive" o)
         \/ ev = Invoke (Events_trigger "collisionEnd" o).

(** Every [P]-entry of the trace has a [mark] somewhere before it. *)
Definition only_after (P : Event -> Prop) (mark : Event) (t : list Event) : Prop :=
  forall j b, t !! j = Some b -> P b ->
    exists i, (i < j)%nat /\ t !! i = Some mark.

Definition manager_call (ev : Event) : Prop :=
  exists ts, ev = Invoke (Manager_updatePairs ts)
          \/ ev = Invoke (Manager_removeOldPairs ts).

Definition resolver_call (ev : Event) : Prop :=
  ev = Invoke Resolver_preSolveVelocity
  \/ ev = Invoke Resolver_solveVelocity
  \/ ev = Invoke Resolver_solvePosition
  \/ ev = Invoke Resolver_postSolvePosition.

Definition broadphase_call (ev : Event) : Prop :=
  (exists c, ev = Invoke (Controller_update c))
  \/ (exists d src, ev = Invoke (Detector_apply d src)).

Definition sleeping_call (ev : Event) : Prop :=
  ev = Invoke Sleeping_update \/ ev = Invoke Sleeping_afterCollisions.

(** *** The phases of the pipeline *)

Inductive Phase :=
| Integrate
| GridUpdate
| Detect
| PairMerge
| SleepWake
| VelocitySolve
| PositionSolve
| MetricsUpdate.

#[global] Instance Phase_eq_dec : EqDecision Phase := ltac:(solve_decision).

(** The call that carries out each phase.  The integrator is
    [Body.updateAll]: it is the call that receives the time step
    [delta * timeScale] and the Verlet [correction], and moves the bodies. *)
Definition phase_of (ev : Event) : option Phase :=
  match ev with
  | Invoke (Body_updateAll _ _) => Some Integrate
  | Invoke (Controller_update _) => Some GridUpdate
  | Invoke (Detector_apply _ _) => Some Detect
  | Invoke (Manager_updatePairs _) => Some PairMerge
  | Invoke Sleeping_afterCollisions => Some SleepWake
  | Invoke Resolver_solveVelocity => Some VelocitySolve
  | Invoke Resolver_solvePosition => Some PositionSolve
  | Invoke Metrics_update => Some MetricsUpdate
  | _ => None
  end.

Definition in_phase (p : Phase) (ev : Event) : Prop := phase_of ev = Some p.

(** A trace runs its phases in the order [before]. *)
Definition in_order (before : Phase -> Phase -> Prop) (t : list Event) : Prop :=
  forall p q, before p q -> precedes (in_phase p) (in_phase q) t.

(** The order of the pipeline: Grid, Detect, Pair-merge, Sleep-wake,
    Velocity-solve, Position-solve, metrics. *)
Definition pipeline_rank (p : Phase) : option nat :=
  match p with
  | Integrate => None
  | GridUpdate => Some 1
  | Detect => Some 2
  | PairMerge => Some 3
  | SleepWake => Some 4
  | VelocitySolve => Some 5
  | PositionSolve => Some 6
  | MetricsUpdate => Some 7
  end%nat.

Definition pipeline_before (p q : Phase) : Prop :=
  exists m n, pipeline_rank p = Some m /\ pipeline_rank q = Some n /\ (m < n)%nat.

(** The order as the specification states it: the pipeline, and the
    integrator after the resolver phases. *)
Definition spec_before (p q : Phase) : Prop :=
  pipeline_before p q
  \/ ((p = VelocitySolve \/ p = PositionSolve) /\ q = Integrate).

(** The order of the code: the same pipeline, the integrator first. *)
Definition code_before (p q : Phase) : Prop :=
  pipeline_before p q \/ (p = Integrate /\ q <> Integrate).

(** The phases a tick of engine [e] goes through. *)
Definition update_phases (e : Engine) : list Phase :=
  [Integrate]
  ++ match controller (broadphase_current (broadphase e)) with
     | Some _ => [GridUpdate]
     | None => []
     end
  ++ [Detect; PairMerge]
  ++ (if enableSleeping e then [SleepWake] else [])
  ++ replicate (Z.to_nat (velocityIterations e)) VelocitySolve
  ++ replicate (Z.to_nat (positionIterations e)) PositionSolve
  ++ [MetricsUpdate].

(** Position of each entry in the program text of [Engine.update]. *)
Definition stage (ev : Event) : nat :=
  match ev with
  | Enter_update _ _ => 0
  | Invoke Metrics_reset => 1
  | Invoke Sleeping_update => 2
  | Invoke Body_applyGravityAll => 3
  | Invoke MouseConstraint_update => 4
  | Invoke (Body_updateAll _ _) => 5
  | Invoke Constraint_updateAll => 6
  | Invoke (Controller_update _) => 7
  | Invoke (Detector_apply _ _) => 8
  | Invoke (Manager_updatePairs _) => 9
  | Invoke (Manager_removeOldPairs _) => 10
  | Invoke Sleeping_afterCollisions => 11
  | Invoke Resolver_preSolveVelocity => 12
  | Invoke Resolver_solveVelocity => 13
  | Invoke Resolver_solvePosition => 14
  | Invoke Resolver_postSolvePosition => 15
  | Invoke Metrics_update => 16
  | Invoke Body_resetForcesAll => 17
  | Return_update => 18
  | _ => 19
  end%nat.

(** The raw frame deltas of a run of frames: the time since the frame
    before, [_delta] when that is [0]. *)
Fixpoint raw_deltas (previous : Q) (timestamps : list (option Q)) : list Q :=
  match timestamps with
  | [] => []
  | t :: ts =>
      num_or (frame_timestamp t - previous)%Q _delta
      :: raw_deltas (frame_timestamp t) ts
  end.

(** A list of stages that does not decrease and starts at [lo] or later. *)
Definition ascending_from (lo : nat) (l : list nat) : Prop :=
  StronglySorted le l /\ Forall (le lo) l.

(** *** From the created object to the engine of the tick *)

(** The tick reads an absent flag as false and runs no iteration of a loop
    whose bound is absent; it cannot run without timing, time scale, render
    and broadphase. *)
Definition engine_of (o : Obj.t) : option Engine :=
  match Obj.timeScale o, Obj.timing o, Obj.render o, Obj.broadphase o with
  | Some ts, Some t, Some r, Some b =>
      Some {| enabled := default false (Obj.enabled o);
              positionIterations := default 0 (Obj.positionIterations o);
              velocityIterations := default 0 (Obj.velocityIterations o);
              constraintIterations := default 0 (Obj.constraintIterations o);
              enableSleeping := default false (Obj.enableSleeping o);
              timeScale := ts;
              timing := t;
              render_options_enabled := options_enabled r;
              broadphase := b |}
  | _, _, _, _ => None
  end.

(** What is asked of [Common.extend]: a property its source does not have
    keeps the value of the target, and the target loses no property. *)
Definition own {A} (f : Obj.t -> option A) (options : option Obj.t) : option A :=
  match options with
  | Some o => f o
  | None => None
  end.

Record extend_laws (extend : Obj.t -> option Obj.t -> Obj.t) : Prop := {
  extend_positionIterations : forall d o,
    own Obj.positionIterations o = None ->
    Obj.positionIterations (extend d o) = Obj.positionIterations d;
  extend_velocityIterations : forall d o,
    own Obj.velocityIterations o = None ->
    Obj.velocityIterations (extend d o) = Obj.velocityIterations d;
  extend_constraintIterations : forall d o,
    own Obj.constraintIterations o = None ->
    Obj.constraintIterations (extend d o) = Obj.constraintIterations d;
  extend_enableSleeping : forall d o,
    own Obj.enableSleeping o = None ->
    Obj.enableSleeping (extend d o) = Obj.enableSleeping d;
  extend_input : forall d o,
    is_Some (Obj.input d) -> is_Some (Obj.input (extend d o))
}.

(** The calls of a tick that follow [Manager.removeOldPairs]. *)
Definition after_eviction (c : Call) : Prop :=
  match c with
  | Sleeping_afterCollisions
  | Resolver_preSolveVelocity | Resolver_solveVelocity
  | Resolver_solvePosition | Resolver_postSolvePosition
  | Metrics_update | Body_resetForcesAll => True
  | _ => False
  end.

(** *** An example Manager

    A pair table that keeps, for each pair, the time it was last updated;
    [updatePairs] enters the pair of the tick, [removeOldPairs] drops the
    pairs idle for longer than [pairMaxIdleLife]; no other call touches the
    table. *)
Record PairEntry := { pair : PairId; timeUpdated : Q }.

Definition pairMaxIdleLife : Q := 1000.

Definition idle_within (ts : Q) (p : PairEntry) : bool :=
  Qle_bool (ts - timeUpdated p) pairMaxIdleLife.

Definition table_sem (c : Call) (table : list PairEntry) : list PairEntry :=
  match c with
  | Manager_updatePairs ts => table ++ [{| pair := length table; timeUpdated := ts |}]
  | Manager_removeOldPairs ts => filter (fun p => idle_within ts p = true) table
  | _ => table
  end.

Definition no_stale_pair (ts : Q) (table : list PairEntry) : Prop :=
  Forall (fun p => idle_within ts p = true) table.

Definition stale_table : list PairEntry :=
  [{| pair := 3%nat; timeUpdated := -5000 |}; {| pair := 4%nat; timeUpdated := -20 |}].

(** *** A concrete set of collaborators, for examples *)

(** The object graph is reduced to the number of calls made on it; one pair
    is colliding, none has ended, the mouse is still. *)
Definition demo_sem (c : Call) (h : nat) : nat := S h.
Definition demo_collisionStart (h : nat) : list PairId := [7%nat].
Definition demo_collisionActive (h : nat) : list PairId := [7%nat].
Definition demo_collisionEnd (h : nat) : list PairId := [].
Definition demo_mouse (h : nat) : bool := false.

Definition demo_Render_create (options : option RenderObj) : RenderObj :=
  {| render_controller := true; render_canvas := 0%nat; options_enabled := true |}.

Definition demo_render (timestamp : option Q) : M unit :=
  render demo_sem demo_collisionStart demo_collisionActive demo_collisionEnd
    demo_mouse demo_mouse demo_mouse timestamp.

(** The engine of the tick that [defaults] alone gives, with the render
    Render.create makes in the examples. *)
Definition default_engine : Engine :=
  {| enabled := true;
     positionIterations := 6;
     velocityIterations := 4;
     constraintIterations := 1;
     enableSleeping := false;
     timeScale := 1;
     timing := default_timing;
     render_options_enabled := true;
     broadphase := default_broadphase |}.

Definition initial_state (e : Engine) : @State nat :=
  {| eng := e; loc := run_init; heap := 0%nat |}.

(** An object that sets nothing but [input]: [{input: {}}]. *)
Definition bare_object : Obj.t :=
  {| Obj.enabled := None; Obj.positionIterations := None;
     Obj.velocityIterations := None; Obj.constraintIterations := None;
     Obj.pairs := None; Obj.enableSleeping := None; Obj.timeScale := None;
     Obj.input := Some {| mouse := None |}; Obj.events := None;
     Obj.timing := None; Obj.render := None; Obj.world := None;
     Obj.metrics := None; Obj.mouseConstraint := None;
     Obj.broadphase := None |}.

(** *** The claims on [Engine.create] and on the delta of a frame, as stated *)

(** The engine returned has the default iteration counts whenever the
    options do not set them. *)
Definition create_gives_default_iterations
    (extend : Obj.t -> option Obj.t -> Obj.t)
    (Render_create : option RenderObj -> RenderObj) : Prop :=
  forall element options,
    own Obj.velocityIterations options = None ->
    own Obj.positionIterations options = None ->
    exists e dom,
      create extend Render_create element options = Ok (e, dom)
      /\ Obj.velocityIterations e = Some 4
      /\ Obj.positionIterations e = Some 6.


(** What [render] does once [Engine.update] has returned: it triggers events,
    clears the mouse and renders the world. *)
Definition after_update_call (c : Call) : Prop :=
  match c with
  | Events_trigger _ _ | Render_world | Mouse_clearSourceEvents => True
  | _ => False
  end.

Definition after_update_entry (ev : Event) : Prop :=
  match ev with
  | Invoke c => after_update_call c
  | _ => False
  end.

(** A computation that leaves the engine and the closure of [Engine.run]
    alone and only makes calls of the kind above. *)
Definition quiet {H A} (m : @M H A) : Prop :=
  forall s,
    eng (result_state m s) = eng s
    /\ loc (result_state m s) = loc s
    /\ Forall after_update_entry (events m s).


(** The value of [enableSleeping] the caller of [Engine.create] supplied:
    in the options when the first argument is an element, else in the
    object given in its place. *)
Definition caller_enableSleeping (element : JsArg) (options : option Obj.t)
  : option bool :=
  match element with
  | HTMLElement _ => own Obj.enableSleeping options
  | PlainObject o => Obj.enableSleeping o
  | Undefined => None
  end.

(** Variants of the default engine. *)
Definition sleeping_engine : Engine :=
  {| enabled := true; positionIterations := 6; velocityIterations := 4;
     constraintIterations := 1; enableSleeping := true; timeScale := 1;
     timing := default_timing; render_options_enabled := true;
     broadphase := default_broadphase |}.

Definition disabled_engine : Engine :=
  {| enabled := false; positionIterations := 6; velocityIterations := 4;
     constraintIterations := 1; enableSleeping := false; timeScale := 1;
     timing := default_timing; render_options_enabled := true;
     broadphase := default_broadphase |}.


(** ** Vocabulary for the further properties *)

(** How often an entry occurs in a trace. *)
Definition count_event (ev : Event) (t : list Event) : nat :=
  length (filter (eq ev) t).

(** The calls [Engine.update] makes once in every tick, outside its loops
    and conditionals. *)
Definition fixed_call (c : Call) : Prop :=
  match c with
  | Metrics_reset | Sleeping_update | Body_applyGravityAll
  | MouseConstraint_update | Body_updateAll _ _
  | Resolver_postSolvePosition | Metrics_update | Body_resetForcesAll => True
  | _ => False
  end.

Definition fixed_entry (ev : Event) : Prop :=
  match ev with
  | Invoke c => fixed_call c
  | _ => True
  end.

(** A trace with at most one trigger of the collision event [name], whose
    list of pairs is not empty. *)
Definition at_most_one_event (name : string) (t : list Event) : Prop :=
  t = [] \/ exists pairs, pairs <> []
                     /\ t = [Invoke (Events_trigger name (PairsEvent pairs))].

Definition mouse_trigger (ev : Event) : Prop :=
  exists name, ev = Invoke (Events_trigger name MouseEvent).

(** Collaborators of a world at rest: no pair in any list. *)
Definition no_pairs (h : nat) : list PairId := [].

(** *** The timing step of a frame, as functions of the state before it

    The values lines 128-153 compute and store: the delta of the frame, the
    timing and the closure variables it leaves. *)
Definition frame_delta (t : Timing) (l : RunLocals) (now : Q) : Q :=
  limit_delta t
    (Math_min (slice_last _deltaSampleSize (deltaHistory l ++ [raw_delta t now]))).

Definition second_elapsed (l : RunLocals) (now : Q) : bool :=
  Qge_bool (now - counterTimestamp l) 1000.

Definition next_timing (t : Timing) (l : RunLocals) (now : Q) : Timing :=
  {| fps := if second_elapsed l now
            then inject_Z (frameCounter l + 1) * ((now - counterTimestamp l) / 1000)
            else fps t;
     timestamp := now;
     delta := frame_delta t l now;
     correction := frame_delta t l now / delta t;
     deltaMin := deltaMin t;
     deltaMax := deltaMax t |}.

Definition next_locals (t : Timing) (l : RunLocals) (now : Q) : RunLocals :=
  {| loc_delta := Some (frame_delta t l now);
     loc_correction := Some (frame_delta t l now / delta t)%Q;
     counterTimestamp := if second_elapsed l now then now else counterTimestamp l;
     frameCounter := if second_elapsed l now then 0 else frameCounter l + 1;
     deltaHistory :=
       slice_last _deltaSampleSize (deltaHistory l ++ [raw_delta t now]) |}.

(** Two engines with the same configuration: all but the timing values a
    frame writes. *)
Definition same_configuration (e e' : Engine) : Prop :=
  enabled e' = enabled e
  /\ positionIterations e' = positionIterations e
  /\ velocityIterations e' = velocityIterations e
  /\ constraintIterations e' = constraintIterations e
  /\ enableSleeping e' = enableSleeping e
  /\ timeScale e' = timeScale e
  /\ render_options_enabled e' = render_options_enabled e
  /\ broadphase e' = broadphase e
  /\ deltaMin (timing e') = deltaMin (timing e)
  /\ deltaMax (timing e') = deltaMax (timing e).

(** The arguments of the entries to [Engine.update] in a trace, in order. *)
Definition update_entry (ev : Event) : option (Q * Q) :=
  match ev with
  | Enter_update delta correction => Some (delta, correction)
  | _ => None
  end.

Definition update_entries (t : list Event) : list (Q * Q) :=
  omap update_entry t.

(** Deltas, each paired with its ratio to the delta before it. *)
Fixpoint ratio_chain (previous : Q) (deltas : list Q) : list (Q * Q) :=
  match deltas with
  | [] => []
  | d :: ds => (d, (d / previous)%Q) :: ratio_chain d ds
  end.

(** What limiting guarantees of a delta: never above [deltaMax], never
    below the lesser bound, and within the bounds when they are in order. *)
Definition delta_limited (t : Timing) (d : Q) : Prop :=
  (Qmin (deltaMin t) (deltaMax t) <= d)%Q
  /\ (d <= deltaMax t)%Q
  /\ ((deltaMin t <= deltaMax t)%Q -> (deltaMin t <= d)%Q).


(** The run of the examples, and its collaborators when nothing collides. *)
Definition demo_run (timestamps : list Q) : M unit :=
  run demo_sem demo_collisionStart demo_collisionActive demo_collisionEnd
    demo_mouse demo_mouse demo_mouse timestamps.



(** *** Engine.create: the object that becomes the engine (line 59) *)

Definition chosen (extend : Obj.t -> option Obj.t -> Obj.t)
    (element : JsArg) (options : option Obj.t) : option Obj.t :=
  match element with
  | HTMLElement _ => Some (extend defaults options)
  | PlainObject o => Some o
  | Undefined => None
  end.

(** [engine.world = world] and [engine.pairs = pairs] *)
Definition set_world (o : Obj.t) (world : option WorldObj) : Obj.t :=
  {| Obj.enabled := Obj.enabled o;
     Obj.positionIterations := Obj.positionIterations o;
     Obj.velocityIterations := Obj.velocityIterations o;
     Obj.constraintIterations := Obj.constraintIterations o;
     Obj.pairs := Obj.pairs o;
     Obj.enableSleeping := Obj.enableSleeping o;
     Obj.timeScale := Obj.timeScale o;
     Obj.input := Obj.input o;
     Obj.events := Obj.events o;
     Obj.timing := Obj.timing o;
     Obj.render := Obj.render o;
     Obj.world := world;
     Obj.metrics := Obj.metrics o;
     Obj.mouseConstraint := Obj.mouseConstraint o;
     Obj.broadphase := Obj.broadphase o |}.

Definition set_pairs (o : Obj.t) (pairs : option Obj.Pairs) : Obj.t :=
  {| Obj.enabled := Obj.enabled o;
     Obj.positionIterations := Obj.positionIterations o;
     Obj.velocityIterations := Obj.velocityIterations o;
     Obj.constraintIterations := Obj.constraintIterations o;
     Obj.pairs := pairs;
     Obj.enableSleeping := Obj.enableSleeping o;
     Obj.timeScale := Obj.timeScale o;
     Obj.input := Obj.input o;
     Obj.events := Obj.events o;
     Obj.timing := Obj.timing o;
     Obj.render := Obj.render o;
     Obj.world := Obj.world o;
     Obj.metrics := Obj.metrics o;
     Obj.mouseConstraint := Obj.mouseConstraint o;
     Obj.broadphase := Obj.broadphase o |}.

(** The mouse the caller of [Engine.create] supplied, if any. *)
Definition given_mouse (o : Obj.t) : option MouseObj :=
  match Obj.input o with
  | Some i => mouse i
  | None => None
  end.

(** A render that is not replaced: it brings its controller. *)
Definition custom_render (o : Obj.t) : Prop :=
  exists r, Obj.render o = Some r /\ render_controller r = true.

(** ** Engine.clear (lines 336-352) and Engine.merge (lines 305-329)

    Both work on the engine as an object, with the collaborators of
    [Engine.create]: the world is the symbolic term the calls on it build.
    The bodies of a world are known to the world only. *)

Definition BodyRef := nat.

(** The calls of [Engine.clear] and [Engine.merge] besides
    [World.addComposite], which shows in the world.  The forced update of a
    controller is handed the bodies of [world]. *)
Inductive Maintenance :=
| Grid_clear
| Controller_update_forced (c : Controller) (world : WorldObj)
| Sleeping_set (body : BodyRef) (isSleeping : bool)
| Body_nextId (body : BodyRef).

(** How a call on objects [S] ends: it returns, having made [calls]; it
    throws a TypeError on reading a property of [undefined]; or it hands
    [undefined] to a collaborator.  Whether that collaborator throws or
    returns is its own matter, and with it whether the caller goes on (in
    [Engine.clear] to line 350, which reads [world.bodies]): the call is
    followed no further.  Each carries the objects as the call has left
    them up to there. *)
Inductive Outcome (S : Type) :=
| Returns (s : S) (calls : list Maintenance)
| Throws (s : S)
| Hands_undefined (s : S).
Arguments Returns {S} s calls.
Arguments Throws {S} s.
Arguments Hands_undefined {S} s.

(** [controller === Grid] *)
Definition is_Grid (c : option Controller) : bool :=
  match c with
  | Some Grid => true
  | _ => false
  end.

(** [engine.pairs.table = {}; engine.pairs.list = []] *)
Definition emptied (p : Obj.Pairs) : Obj.Pairs :=
  {| Obj.table := [];
     Obj.list := [];
     Obj.collisionStart := Obj.collisionStart p;
     Obj.collisionActive := Obj.collisionActive p;
     Obj.collisionEnd := Obj.collisionEnd p |}.

(** Lines 343-351 of [Engine.clear]: the calls on the broadphase. *)
Definition clear_broadphase (b : Broadphase) (world : WorldObj)
  : list Maintenance :=
  let entry := broadphase_current b in
  (if is_Grid (controller entry) then [Grid_clear] else [])
  ++ match controller entry with
     | Some c => [Controller_update_forced c world]
     | None => []
     end.

Definition clear (engine : Obj.t) : Outcome Obj.t :=
  match Obj.pairs engine with
  | None => Throws engine
  | Some p =>
      let engine := set_pairs engine (Some (emptied p)) in
      match Obj.world engine, Obj.mouseConstraint engine with
      | Some w, Some mc =>
          let world := World_addComposite w mc in
          let engine := set_world engine (Some world) in
          match Obj.broadphase engine with
          | None => Throws engine
          | Some b => Returns engine (clear_broadphase b world)
          end
      | _, _ => Hands_undefined engine
      end
  end.

Section Merging.

(** [Common.extend], and [world.bodies]. *)
Variable extend : Obj.t -> option Obj.t -> Obj.t.
Variable bodies : WorldObj -> list BodyRef.

(** Lines 313-319: every body is woken and given a new id. *)
Definition renumber (world : WorldObj) : list Maintenance :=
  body ← bodies world; [Sleeping_set body false; Body_nextId body].

(** Lines 321-326: the grid is built again. *)
Definition rebuild_grid (b : Broadphase) (world : WorldObj)
  : list Maintenance :=
  if is_Grid (controller (broadphase_current b))
  then [Grid_clear; Controller_update_forced Grid world]
  else [].

(** [Engine.merge(engineA, engineB)], on the pair of engines: the world of
    [engineB] becomes that of [engineA] too, and what is done to it shows in
    both. *)
Definition merge (engineA engineB : Obj.t) : Outcome (Obj.t * Obj.t) :=
  let engineA := extend engineA (Some engineB) in
  match Obj.world engineB with
  | None => Returns (engineA, engineB) []
  | Some w =>
      let shared (a : Obj.t) := (a, set_world engineB (Obj.world a)) in
      match clear (set_world engineA (Some w)) with
      | Throws a => Throws (shared a)
      | Hands_undefined a => Hands_undefined (shared a)
      | Returns a calls =>
          match Obj.world a, Obj.broadphase a with
          | Some world, Some b =>
              Returns (shared a)
                (calls ++ renumber world ++ rebuild_grid b world)
          | _, _ => Throws (shared a)
          end
      end
  end.

End Merging.

(** The engines and the world of the merge examples. *)
Definition demo_bodies (world : WorldObj) : list BodyRef := [1%nat; 2%nat].

(** [Engine.create(element)], and an object with a world of its own. *)
Definition created_engine : Obj.t :=
  match create Common_extend demo_Render_create (HTMLElement 0) None with
  | Ok (e, _) => e
  | TypeError => defaults
  end.

Definition demo_source : Obj.t := set_world defaults (Some (World_given 1)).

(** ** Engine.update when collaborators may write the engine

    The tick hands the engine, and objects reachable from it, to its
    collaborators.  Here a call may rewrite the engine as well as the world,
    and the tick reads each switch, count and scale at the line that reads
    it, a loop bound at every test.  The record stands for the objects of
    the engine: the broadphase entry taken at line 238 is read where it is
    used, under the key that was current on entry.  A loop whose bound a
    collaborator keeps raising need not end: a loop runs as long as [fuel]
    lasts, one unit for each test that passes. *)

Definition broadphase_entry (key : BroadphaseKey) (b : Broadphase)
  : BroadphaseEntry :=
  match key with
  | key_grid => grid b
  | key_bruteForce => bruteForce b
  end.

(** What the tick reads of the engine. *)
Definition tick_inputs (e : Engine)
  : bool * Q * Z * Z * Z * Q * Broadphase :=
  (enableSleeping e, timeScale e, constraintIterations e,
   velocityIterations e, positionIterations e, timestamp (timing e),
   broadphase e).

Section WritingCollaborators.

Context {H : Type}.

(** The effect of a call on the engine and on the object graph. *)
Variable act : Call -> Engine -> H -> Engine * H.

Local Notation "x <- m ;; k" := (bind m (fun x => k))
  (at level 100, m at next level, right associativity).
Local Notation "m ;; k" := (bind m (fun _ => k))
  (at level 100, right associativity).

Definition call_writing (c : Call) : @M H unit :=
  fun s =>
    let '(e, h) := act c (eng s) (heap s) in
    (tt, {| eng := e; loc := loc s; heap := h |}, [Invoke c]).

(** [for (; i < bound; i++) body], the bound read at every test; the
    answer is [false] when the fuel is used up before a test fails. *)
Fixpoint for_reading (fuel : nat) (i : Z) (bound : Engine -> Z)
    (body : @M H unit) : @M H bool :=
  fun s =>
    if (i <? bound (eng s))%Z then
      match fuel with
      | O => (false, s, [])
      | S fuel' => (body ;; for_reading fuel' (i + 1) bound body) s
      end
    else (true, s, []).

(** The rest of the function after a loop, if the loop has ended. *)
Definition and_then (loop rest : @M H bool) : @M H bool :=
  ended <- loop ;;
  if ended then rest else ret false.

(** [Engine.update] (lines 236-297); [true] when it returns. *)
Definition update_writing (fuel : nat) (delta correction : Q)
  : @M H bool :=
  log (Enter_update delta correction) ;;
  key <- gets (fun s => current (broadphase (eng s))) ;;
  call_writing Metrics_reset ;;
  sleeping <- gets (fun s => enableSleeping (eng s)) ;;
  when sleeping (call_writing Sleeping_update) ;;
  call_writing Body_applyGravityAll ;;
  call_writing MouseConstraint_update ;;
  scale <- gets (fun s => timeScale (eng s)) ;;
  call_writing (Body_updateAll (delta * scale) correction) ;;
  and_then
    (for_reading fuel 0 constraintIterations
       (call_writing Constraint_updateAll))
    (entry <- gets (fun s => broadphase_entry key (broadphase (eng s))) ;;
     broadphasePairs <-
       match controller entry with
       | Some c => call_writing (Controller_update c) ;; ret instance_pairsList
       | None => ret world_bodies
       end ;;
     entry <- gets (fun s => broadphase_entry key (broadphase (eng s))) ;;
     call_writing (Detector_apply (detector entry) broadphasePairs) ;;
     timestamp <- gets (fun s => timestamp (timing (eng s))) ;;
     call_writing (Manager_updatePairs timestamp) ;;
     call_writing (Manager_removeOldPairs timestamp) ;;
     sleeping <- gets (fun s => enableSleeping (eng s)) ;;
     when sleeping (call_writing Sleeping_afterCollisions) ;;
     call_writing Resolver_preSolveVelocity ;;
     and_then
       (for_reading fuel 0 velocityIterations
          (call_writing Resolver_solveVelocity))
       (and_then
          (for_reading fuel 0 positionIterations
             (call_writing Resolver_solvePosition))
          (call_writing Resolver_postSolvePosition ;;
           call_writing Metrics_update ;;
           call_writing Body_resetForcesAll ;;
           log Return_update ;;
           ret true))).

(** No call writes what the tick reads. *)
Definition keeps_tick_inputs : Prop :=
  forall c e h, tick_inputs (act c e h).1 = tick_inputs e.

(** [m], started on any state whose tick inputs are those of [e0], returns
    [a] with the trace [t] and leaves the tick inputs and the closure of the
    run as they are. *)
Definition steady {A} (m : @M H A) (e0 : Engine) (a : A) (t : list Event)
  : Prop :=
  forall s, tick_inputs (eng s) = tick_inputs e0 ->
    exists s', m s = (a, s', t)
               /\ tick_inputs (eng s') = tick_inputs e0
               /\ loc s' = loc s.

End WritingCollaborators.

(** A collaborator that at every call disables the engine, raises its fps
    and stores the frame delta of its own liking. *)
Definition meddling (c : Call) (e : Engine) (h : nat) : Engine * nat :=
  ({| enabled := false;
      positionIterations := positionIterations e;
      velocityIterations := velocityIterations e;
      constraintIterations := constraintIterations e;
      enableSleeping := enableSleeping e;
      timeScale := timeScale e;
      timing := {| fps := fps (timing e) + 1;
                   timestamp := timestamp (timing e);
                   delta := 1;
                   correction := correction (timing e);
                   deltaMin := deltaMin (timing e);
                   deltaMax := deltaMax (timing e) |};
      render_options_enabled := render_options_enabled e;
      broadphase := broadphase e |},
   S h).

(** * Properties *)

(** ** Engine.create *)

(** Given an element, Engine.create returns the defaults extended by the
    options, completed with the objects of the collaborators; the
    configuration is that of the extended defaults. *)
Lemma create_with_element extend Render_create el options :
  extend_laws extend ->
  exists e dom,
    create extend Render_create (HTMLElement el) options = Ok (e, dom)
    /\ Obj.positionIterations e = Obj.positionIterations (extend defaults options)
    /\ Obj.velocityIterations e = Obj.velocityIterations (extend defaults options)
    /\ Obj.constraintIterations e
       = Obj.constraintIterations (extend defaults options)
    /\ Obj.enableSleeping e = Obj.enableSleeping (extend defaults options).
Proof.
  intros Hlaws. unfold create, complete. cbn [isElement].
  destruct (extend_input _ Hlaws defaults options) as [input Hinput]; [by eexists|].
  rewrite Hinput.
  destruct (Obj.render (extend defaults options)) as [r|];
    [destruct (render_controller r)|];
    by eexists _, _.
Qed.

Lemma Common_extend_laws : extend_laws Common_extend.
Proof.
  split; intros d [o|] Hown; cbn in *; try done; try by rewrite Hown.
  by destruct (Obj.input o).
Qed.

(** ** Lists of stages *)

Lemma ascending_nil lo : ascending_from lo [].
Proof. split; constructor. Qed.

Lemma ascending_cons lo x l :
  (lo <= x)%nat -> ascending_from x l -> ascending_from lo (x :: l).
Proof.
  intros Hlo [Hs Hf]. split.
  - by constructor.
  - constructor; [done|]. eapply Forall_impl; [exact Hf|]. intros; simpl in *; lia.
Qed.

Lemma ascending_replicate lo x n l :
  (lo <= x)%nat -> ascending_from x l -> ascending_from lo (replicate n x ++ l).
Proof.
  intros Hlo Hl. induction n as [|n IH]; cbn.
  - destruct Hl as [Hs Hf]. split; [done|].
    eapply Forall_impl; [exact Hf|]. intros; simpl in *; lia.
  - apply ascending_cons; [done|].
    destruct IH as [Hs Hf]. split; [done|].
    apply Forall_app. split.
    + by apply Forall_replicate.
    + by destruct Hl.
Qed.

Lemma StronglySorted_lookup_le (l : list nat) i j x y :
  StronglySorted le l -> (i < j)%nat -> l !! i = Some x -> l !! j = Some y ->
  (x <= y)%nat.
Proof.
  intros Hs. revert i j. induction Hs as [|a l Hs IH Hall]; intros i j Hij Hi Hj.
  - by rewrite lookup_nil in Hi.
  - destruct j as [|j]; [lia|]. cbn in Hj. destruct i as [|i]; cbn in Hi.
    + inversion Hi; subst. rewrite Forall_forall in Hall.
      apply Hall. eapply list_elem_of_lookup_2. exact Hj.
    + eapply IH; [|exact Hi|exact Hj]. lia.
Qed.

(** A trace sorted by stage keeps apart any two sets of entries that the
    stages keep apart. *)
Lemma sorted_precedes (P Q : Event -> Prop) (t : list Event) :
  StronglySorted le (stage <$> t) ->
  (forall a b, P a -> Q b -> (stage a < stage b)%nat) ->
  precedes P Q t.
Proof.
  intros Hs Hlt i j a b Hi Hj Pa Qb.
  specialize (Hlt a b Pa Qb).
  destruct (decide (i < j)%nat) as [|Hge]; [done|]. exfalso.
  destruct (decide (i = j)) as [->|Hne].
  - rewrite Hi in Hj. inversion Hj; subst. lia.
  - assert (stage b <= stage a)%nat; [|lia].
    eapply (StronglySorted_lookup_le _ j i); [exact Hs|lia| |];
      rewrite list_lookup_fmap; [by rewrite Hj|by rewrite Hi].
Qed.

(** ** Counting calls *)

Lemma occurrences_nil c : occurrences c [] = 0%nat.
Proof. done. Qed.

Lemma occurrences_app c t1 t2 :
  occurrences c (t1 ++ t2) = (occurrences c t1 + occurrences c t2)%nat.
Proof. unfold occurrences. by rewrite filter_app, length_app. Qed.

Lemma occurrences_cons c ev t :
  occurrences c (ev :: t) =
  ((if decide (Invoke c = ev) then 1 else 0) + occurrences c t)%nat.
Proof.
  unfold occurrences. rewrite filter_cons. by destruct (decide (Invoke c = ev)).
Qed.

Lemma occurrences_replicate c ev n :
  occurrences c (replicate n ev) =
  (if decide (Invoke c = ev) then n else 0)%nat.
Proof.
  induction n as [|n IH]; cbn [replicate].
  - by destruct (decide _).
  - rewrite occurrences_cons, IH. by destruct (decide _).
Qed.

Lemma occurrences_here c t :
  occurrences c (Invoke c :: t) = S (occurrences c t).
Proof. rewrite occurrences_cons. by rewrite decide_True. Qed.

Lemma occurrences_skip c ev t :
  Invoke c <> ev -> occurrences c (ev :: t) = occurrences c t.
Proof. intros Hne. rewrite occurrences_cons. by rewrite decide_False. Qed.

Lemma occurrences_replicate_here c n :
  occurrences c (replicate n (Invoke c)) = n.
Proof. rewrite occurrences_replicate. by rewrite decide_True. Qed.

Lemma occurrences_replicate_skip c ev n :
  Invoke c <> ev -> occurrences c (replicate n ev) = 0%nat.
Proof. intros Hne. rewrite occurrences_replicate. by rewrite decide_False. Qed.

Lemma omap_replicate {A B} (f : A -> option B) n x :
  omap f (replicate n x) =
  match f x with Some y => replicate n y | None => [] end.
Proof.
  induction n as [|n IH]; cbn.
  - by destruct (f x).
  - rewrite IH. by destruct (f x).
Qed.

Ltac count_calls :=
  repeat first
    [ rewrite occurrences_nil
    | rewrite occurrences_app
    | rewrite occurrences_here
    | rewrite occurrences_skip by discriminate
    | rewrite occurrences_replicate_here
    | rewrite occurrences_replicate_skip by discriminate ];
  try lia.

Lemma only_after_mark (P : Event -> Prop) mark pre post :
  Forall (fun ev => ~ P ev) pre -> ~ P mark ->
  only_after P mark (pre ++ mark :: post).
Proof.
  intros Hpre Hmark j b Hj Hb. exists (length pre). split.
  - destruct (decide (j < length pre)%nat) as [Hlt|Hge].
    + rewrite lookup_app_l in Hj by done.
      rewrite Forall_forall in Hpre. exfalso.
      eapply Hpre; [|exact Hb]. eapply list_elem_of_lookup_2. exact Hj.
    + destruct (decide (j = length pre)) as [->|Hne]; [|lia].
      rewrite list_lookup_middle in Hj by done. by simplify_eq.
  - by rewrite list_lookup_middle.
Qed.






Lemma slice_last_length {A} n (l : list A) : (length (slice_last n l) <= n)%nat.
Proof. unfold slice_last. rewrite length_drop. lia. Qed.



Lemma slice_last_short {A} n (l : list A) :
  (length l <= n)%nat -> slice_last n l = l.
Proof.
  intros Hle. unfold slice_last.
  by replace (length l - n)%nat with 0%nat by lia.
Qed.

Lemma slice_last_app {A} n (l l' : list A) :
  slice_last n (slice_last n l ++ l') = slice_last n (l ++ l').
Proof.
  destruct (decide (length l <= n)%nat) as [Hle|Hgt].
  - by rewrite (slice_last_short n l).
  - unfold slice_last. rewrite !length_app, length_drop.
    replace (length l - (length l - n) + length l' - n)%nat
      with (length l')%nat by lia.
    replace (length l + length l' - n)%nat
      with ((length l - n) + length l')%nat by lia.
    rewrite <- drop_drop. f_equal. rewrite drop_app_le by lia. done.
Qed.

Lemma limit_delta_upper t d : (limit_delta t d <= deltaMax t)%Q.
Proof.
  unfold limit_delta, Qlt_bool.
  set (d1 := if negb (Qle_bool (deltaMin t) d) then deltaMin t else d).
  destruct (Qle_bool d1 (deltaMax t)) eqn:Hle; cbn.
  - by apply Qle_bool_iff.
  - apply Qle_refl.
Qed.

Lemma limit_delta_lower t d :
  (deltaMin t <= deltaMax t)%Q -> (deltaMin t <= limit_delta t d)%Q.
Proof.
  intros Hmm. unfold limit_delta, Qlt_bool.
  destruct (Qle_bool (deltaMin t) d) eqn:Hlo; cbn.
  - destruct (Qle_bool d (deltaMax t)) eqn:Hhi; cbn; [|done].
    by apply Qle_bool_iff.
  - destruct (Qle_bool (deltaMin t) (deltaMax t)) eqn:Hhi; cbn.
    + apply Qle_refl.
    + done.
Qed.

Lemma limit_delta_floor t d :
  (Qmin (deltaMin t) (deltaMax t) <= limit_delta t d)%Q.
Proof.
  unfold limit_delta, Qlt_bool.
  destruct (Qle_bool (deltaMin t) d) eqn:Hlo; cbn.
  - destruct (Qle_bool d (deltaMax t)) eqn:Hhi; cbn.
    + eapply Qle_trans; [apply Q.le_min_l|]. by apply Qle_bool_iff.
    + apply Q.le_min_r.
  - destruct (Qle_bool (deltaMin t) (deltaMax t)) eqn:Hhi; cbn.
    + apply Q.le_min_l.
    + apply Q.le_min_r.
Qed.

(** Bring a trace built with [++] and [::] into right-nested form. *)
Ltac flatten_trace :=
  repeat first [rewrite <- app_assoc | rewrite <- app_comm_cons].

Section TickFacts.
Context {H : Type} (sem : Call -> H -> H).
Context (collisionStart collisionActive collisionEnd : H -> list PairId).
Context (mousemove mousedown mouseup : H -> bool).

Local Abbreviation render :=
  (render sem collisionStart collisionActive collisionEnd
     mousemove mousedown mouseup).
Local Abbreviation frames :=
  (frames sem collisionStart collisionActive collisionEnd
     mousemove mousedown mouseup).
Local Abbreviation run :=
  (run sem collisionStart collisionActive collisionEnd
     mousemove mousedown mouseup).

(** ** Running the monad *)

Lemma bind_run {A B} (m : M A) (k : A -> M B) (s s1 s2 : @State H) a b t1 t2 :
  m s = (a, s1, t1) -> k a s1 = (b, s2, t2) -> bind m k s = (b, s2, t1 ++ t2).
Proof. intros Hm Hk. unfold bind. by rewrite Hm, Hk. Qed.

Lemma apply_calls_app cs1 cs2 (h : H) :
  apply_calls sem (cs1 ++ cs2) h = apply_calls sem cs2 (apply_calls sem cs1 h).
Proof. apply foldl_app. Qed.

Lemma for_call n c (s : State) :
  for_ n (call sem c) s =
  (tt, {| eng := eng s; loc := loc s;
          heap := apply_calls sem (replicate (Z.to_nat n) c) (heap s) |},
   replicate (Z.to_nat n) (Invoke c)).
Proof.
  unfold for_. generalize (Z.to_nat n) as k. intros k. revert s.
  induction k as [|k IH]; intros s.
  - by destruct s.
  - cbn [times]. unfold bind at 1. unfold call at 1. by rewrite IH.
Qed.

Ltac run_step :=
  cbn [eng loc heap];
  first
    [ eapply bind_run
    | apply for_call
    | match goal with
      | Hb : ?b = _ |- context [if ?b then _ else _] => rewrite Hb
      | Hb : ?b = _ |- context [match ?b with Some _ => _ | None => _ end] =>
          rewrite Hb
      end
    | reflexivity ].

(** ** Engine.update: what a tick does *)

Lemma update_spec delta correction (s : State) :
  update sem delta correction s =
  (tt, {| eng := eng s; loc := loc s;
          heap := apply_calls sem (update_calls (eng s) delta correction) (heap s) |},
   update_events (eng s) delta correction).
Proof.
  destruct s as [e l h].
  unfold update, update_events, update_calls, when. cbn [eng loc heap].
  destruct (enableSleeping e) eqn:Hs,
           (controller (broadphase_current (broadphase e))) eqn:Hc;
    (etrans; [ repeat run_step | ]);
    rewrite !apply_calls_app, !fmap_app, !fmap_replicate;
    cbn [apply_calls foldl fmap list_fmap app];
    flatten_trace; reflexivity.
Qed.

Lemma update_trace delta correction (s : State) :
  events (update sem delta correction) s = update_events (eng s) delta correction.
Proof. unfold events. by rewrite update_spec. Qed.

Lemma update_events_sorted e delta correction :
  StronglySorted le (stage <$> update_events e delta correction).
Proof.
  cut (ascending_from 0 (stage <$> update_events e delta correction)).
  { by intros [? _]. }
  unfold update_events, update_calls.
  destruct (enableSleeping e), (controller (broadphase_current (broadphase e)));
    rewrite ?fmap_cons, ?fmap_app, ?fmap_replicate; cbn [fmap list_fmap app];
    flatten_trace;
    repeat first
      [ apply ascending_nil
      | apply ascending_replicate; [cbn; lia|]
      | apply ascending_cons; [cbn; lia|] ].
Qed.

(** The trace of a tick with the conditionals decided. *)
Ltac tick_cases e :=
  unfold update_events, update_calls;
  destruct (enableSleeping e) eqn:?,
           (controller (broadphase_current (broadphase e))) eqn:?;
  rewrite ?fmap_cons, ?fmap_app, ?fmap_replicate;
  cbn [fmap list_fmap app]; flatten_trace.

Lemma update_precedes (P Q : Event -> Prop) delta correction (s : State) :
  (forall a b, P a -> Q b -> (stage a < stage b)%nat) ->
  precedes P Q (events (update sem delta correction) s).
Proof.
  intros Hlt. apply sorted_precedes; [|done].
  rewrite update_trace. apply update_events_sorted.
Qed.

Lemma phase_stage a b p q :
  in_phase p a -> in_phase q b -> code_before p q -> (stage a < stage b)%nat.
Proof.
  unfold in_phase, code_before, pipeline_before.
  intros Ha Hb Hpq.
  destruct a as [[]| | |]; cbn in Ha; try discriminate;
    destruct b as [[]| | |]; cbn in Hb; try discriminate;
    simplify_eq; cbn;
    destruct Hpq as [(m & n & Hm & Hn & Hlt)|[? ?]]; cbn in *;
    simplify_eq; try lia; try done.
Qed.

Lemma update_events_phases e delta correction :
  omap phase_of (update_events e delta correction) = update_phases e.
Proof.
  unfold update_phases. tick_cases e;
    cbn [omap list_omap phase_of];
    repeat (rewrite omap_app, omap_replicate; cbn [omap list_omap phase_of]);
    reflexivity.
Qed.

(** C1 (as amended): in every tick the phases run in the order grid update,
    narrow-phase detection, pair merge, sleeping wake-check, velocity
    iterations, position iterations, metrics update; the integrator,
    Body.updateAll, runs once, before all of them. *)
Theorem update_phase_order delta correction (s : State) :
  in_order code_before (events (update sem delta correction) s)
  /\ omap phase_of (events (update sem delta correction) s)
     = update_phases (eng s).
Proof.
  split.
  - intros p q Hpq. apply update_precedes.
    intros a b Ha Hb. by eapply phase_stage.
  - rewrite update_trace. apply update_events_phases.
Qed.

(** C4: in every tick Resolver.preSolveVelocity is called exactly once, the
    engine.velocityIterations calls of Resolver.solveVelocity all come after
    it, and every one of them comes before the first of the
    engine.positionIterations calls of Resolver.solvePosition. *)
Theorem presolve_velocity_position delta correction (s : State) :
  let t := events (update sem delta correction) s in
  occurrences Resolver_preSolveVelocity t = 1%nat
  /\ occurrences Resolver_solveVelocity t
     = Z.to_nat (velocityIterations (eng s))
  /\ occurrences Resolver_solvePosition t
     = Z.to_nat (positionIterations (eng s))
  /\ precedes (call_of Resolver_preSolveVelocity)
              (call_of Resolver_solveVelocity) t
  /\ precedes (call_of Resolver_solveVelocity)
              (call_of Resolver_solvePosition) t
  /\ precedes (call_of Resolver_preSolveVelocity)
              (call_of Resolver_solvePosition) t.
Proof.
  cbn zeta. repeat split;
    try (apply update_precedes; unfold call_of; intros a b -> ->; cbn; lia);
    rewrite update_trace; tick_cases (eng s); count_calls.
Qed.

Ltac no_manager_calls :=
  repeat first
    [ apply Forall_nil_2
    | apply Forall_cons_2
    | apply Forall_app_2
    | apply Forall_replicate
    | (intros [ts [Heq|Heq]]; discriminate) ].

Lemma update_calls_eviction e delta correction :
  exists before after,
    update_calls e delta correction
    = before ++ Manager_removeOldPairs (timestamp (timing e)) :: after
    /\ Forall after_eviction after.
Proof.
  set (b := broadphase_current (broadphase e)).
  exists ([Metrics_reset]
          ++ (if enableSleeping e then [Sleeping_update] else [])
          ++ [Body_applyGravityAll; MouseConstraint_update;
              Body_updateAll (delta * timeScale e) correction]
          ++ replicate (Z.to_nat (constraintIterations e)) Constraint_updateAll
          ++ match controller b with
             | Some c => [Controller_update c;
                          Detector_apply (detector b) instance_pairsList]
             | None => [Detector_apply (detector b) world_bodies]
             end
          ++ [Manager_updatePairs (timestamp (timing e))]),
    ((if enableSleeping e then [Sleeping_afterCollisions] else [])
     ++ [Resolver_preSolveVelocity]
     ++ replicate (Z.to_nat (velocityIterations e)) Resolver_solveVelocity
     ++ replicate (Z.to_nat (positionIterations e)) Resolver_solvePosition
     ++ [Resolver_postSolvePosition; Metrics_update; Body_resetForcesAll]).
  split.
  - unfold update_calls. fold b. rewrite <- !app_assoc. reflexivity.
  - destruct (enableSleeping e);
      repeat first
        [ apply Forall_nil_2
        | apply Forall_cons_2
        | apply Forall_app_2
        | apply Forall_replicate
        | exact I ].
Qed.

Lemma apply_calls_keeps (P : H -> Prop) cs (h : H) :
  (forall c h, after_eviction c -> P h -> P (sem c h)) ->
  Forall after_eviction cs -> P h -> P (apply_calls sem cs h).
Proof.
  intros Hkeep Hcs. revert h.
  induction Hcs as [|c cs Hc Hcs IH]; intros h Hh; cbn; [done|].
  apply IH. by apply Hkeep.
Qed.

(** C5: in every tick Engine.update hands the collisions of the detector to
    Manager.updatePairs with the current timestamp and calls
    Manager.removeOldPairs with the same timestamp right after it; these
    are the only Manager calls of the tick.  Hence whatever
    Manager.removeOldPairs establishes for that timestamp, and the rest of
    the tick keeps, holds when the tick ends: with a Manager that evicts
    stale pairs, no tick ends with a stale pair in the table. *)
Theorem pairs_merged_then_old_removed delta correction (s : State) :
  (exists pre d src post,
     events (update sem delta correction) s
     = pre
       ++ [Invoke (Detector_apply d src);
           Invoke (Manager_updatePairs (timestamp (timing (eng s))));
           Invoke (Manager_removeOldPairs (timestamp (timing (eng s))))]
       ++ post
     /\ Forall (fun ev => ~ manager_call ev) pre
     /\ Forall (fun ev => ~ manager_call ev) post)
  /\ (forall evicted : Q -> H -> Prop,
        (forall ts h, evicted ts (sem (Manager_removeOldPairs ts) h)) ->
        (forall ts c h, after_eviction c -> evicted ts h -> evicted ts (sem c h)) ->
        evicted (timestamp (timing (eng s)))
                (heap (result_state (update sem delta correction) s))).
Proof.
  split.
  - rewrite update_trace.
    set (e := eng s).
    exists (Enter_update delta correction
            :: (Invoke <$>
                ([Metrics_reset]
                 ++ (if enableSleeping e then [Sleeping_update] else [])
                 ++ [Body_applyGravityAll; MouseConstraint_update;
                     Body_updateAll (delta * timeScale e) correction]
                 ++ replicate (Z.to_nat (constraintIterations e)) Constraint_updateAll
                 ++ match controller (broadphase_current (broadphase e)) with
                    | Some c => [Controller_update c]
                    | None => []
                    end))),
      (detector (broadphase_current (broadphase e))),
      (match controller (broadphase_current (broadphase e)) with
       | Some _ => instance_pairsList
       | None => world_bodies
       end),
      ((Invoke <$>
          ((if enableSleeping e then [Sleeping_afterCollisions] else [])
           ++ [Resolver_preSolveVelocity]
           ++ replicate (Z.to_nat (velocityIterations e)) Resolver_solveVelocity
           ++ replicate (Z.to_nat (positionIterations e)) Resolver_solvePosition
           ++ [Resolver_postSolvePosition; Metrics_update; Body_resetForcesAll]))
       ++ [Return_update]).
    tick_cases e; (split; [reflexivity|]); split; no_manager_calls.
  - intros evicted Hevict Hkeep.
    unfold result_state. rewrite update_spec. cbn [fst snd heap].
    destruct (update_calls_eviction (eng s) delta correction)
      as (before & after & -> & Hafter).
    rewrite apply_calls_app.
    change (apply_calls sem (?c :: ?cs) ?h) with (apply_calls sem cs (sem c h)).
    apply apply_calls_keeps; [apply Hkeep|exact Hafter|apply Hevict].
Qed.

(** C6: in every tick with sleeping enabled, Sleeping.afterCollisions is
    called once, after the Manager has updated the pairs and before
    Resolver.preSolveVelocity, every Resolver.solveVelocity and every other
    Resolver call, that is, before any impulse is applied: it is the one
    call between Manager.removeOldPairs and Resolver.preSolveVelocity. *)
Theorem sleeping_wake_before_solving delta correction (s : State) :
  enableSleeping (eng s) = true ->
  let t := events (update sem delta correction) s in
  occurrences Sleeping_afterCollisions t = 1%nat
  /\ precedes manager_call (call_of Sleeping_afterCollisions) t
  /\ precedes (call_of Sleeping_afterCollisions) resolver_call t
  /\ exists pre post,
       t = pre
           ++ [Invoke (Manager_removeOldPairs (timestamp (timing (eng s))));
               Invoke Sleeping_afterCollisions;
               Invoke Resolver_preSolveVelocity]
           ++ post.
Proof.
  intros Hon. cbn zeta. split; [|split; [|split]].
  - rewrite update_trace. tick_cases (eng s); try discriminate; count_calls.
  - apply update_precedes. unfold call_of.
    intros a b [ts [-> | ->]] ->; cbn; lia.
  - apply update_precedes. unfold call_of.
    intros a b -> [-> | [-> | [-> | ->]]]; cbn; lia.
  - rewrite update_trace.
    set (e := eng s) in *. set (b := broadphase_current (broadphase e)).
    exists (Enter_update delta correction
            :: (Invoke <$>
                ([Metrics_reset; Sleeping_update; Body_applyGravityAll;
                  MouseConstraint_update;
                  Body_updateAll (delta * timeScale e) correction]
                 ++ replicate (Z.to_nat (constraintIterations e)) Constraint_updateAll
                 ++ match controller b with
                    | Some c => [Controller_update c;
                                 Detector_apply (detector b) instance_pairsList]
                    | None => [Detector_apply (detector b) world_bodies]
                    end
                 ++ [Manager_updatePairs (timestamp (timing e))]))),
      ((Invoke <$>
          (replicate (Z.to_nat (velocityIterations e)) Resolver_solveVelocity
           ++ replicate (Z.to_nat (positionIterations e)) Resolver_solvePosition
           ++ [Resolver_postSolvePosition; Metrics_update; Body_resetForcesAll]))
       ++ [Return_update]).
    subst b. tick_cases e; try discriminate; reflexivity.
Qed.

(** C7: in every tick Constraint.updateAll is called
    engine.constraintIterations times, and every one of these calls comes
    before the broadphase update and the detector; the count is 1 in the
    defaults of Engine.create, and in the engine it returns for an element
    and options that do not set it. *)
Theorem constraints_before_broadphase delta correction (s : State) :
  let t := events (update sem delta correction) s in
  occurrences Constraint_updateAll t = Z.to_nat (constraintIterations (eng s))
  /\ precedes (call_of Constraint_updateAll) broadphase_call t
  /\ Obj.constraintIterations defaults = Some 1
  /\ (forall extend Render_create el options,
        extend_laws extend ->
        own Obj.constraintIterations options = None ->
        exists e dom,
          create extend Render_create (HTMLElement el) options = Ok (e, dom)
          /\ Obj.constraintIterations e = Some 1).
Proof.
  cbn zeta. split; [|split; [|split; [done|]]].
  - rewrite update_trace. tick_cases (eng s); count_calls.
  - apply update_precedes. unfold call_of.
    intros a b -> [[c ->] | (d & src & ->)]; cbn; lia.
  - intros extend Render_create el options Hlaws Hown.
    destruct (create_with_element extend Render_create el options Hlaws)
      as (e & dom & Hcreate & _ & _ & Hcon & _).
    exists e, dom. split; [exact Hcreate|].
    rewrite Hcon. by rewrite (extend_constraintIterations _ Hlaws).
Qed.

(** ** Engine.run: what a frame does *)

Lemma quiet_ret {A} (a : A) : quiet (H:=H) (ret a).
Proof. intros s. by repeat split. Qed.

Lemma quiet_gets {A} (f : State -> A) : quiet (H:=H) (gets f).
Proof. intros s. by repeat split. Qed.

Lemma quiet_call c : after_update_call c -> quiet (call sem c).
Proof.
  intros Hc s. repeat split. cbn. by repeat constructor.
Qed.

Lemma quiet_bind {A B} (m : M A) (k : A -> M B) :
  quiet (H:=H) m -> (forall a, quiet (k a)) -> quiet (bind m k).
Proof.
  unfold quiet, result_state, events, bind. intros Hm Hk s.
  specialize (Hm s). destruct (m s) as [[a s1] t1].
  specialize (Hk a s1). destruct (k a s1) as [[b s2] t2].
  cbn in *. destruct Hm as (? & ? & ?), Hk as (? & ? & ?).
  repeat split; [congruence|congruence|by apply Forall_app].
Qed.

Lemma quiet_when b (m : M unit) : quiet (H:=H) m -> quiet (when b m).
Proof. destruct b; [done|]. intros _. apply quiet_ret. Qed.

Ltac quiet_steps :=
  repeat first
    [ apply quiet_bind; [|intros ?]
    | apply quiet_when
    | apply quiet_gets
    | apply quiet_ret
    | apply quiet_call; exact I ].

Lemma quiet_triggerCollisionEvents :
  quiet (_triggerCollisionEvents sem collisionStart collisionActive collisionEnd).
Proof. unfold _triggerCollisionEvents. quiet_steps. Qed.

Lemma quiet_triggerMouseEvents :
  quiet (_triggerMouseEvents sem mousemove mousedown mouseup).
Proof. unfold _triggerMouseEvents. quiet_steps. Qed.

(** The part of a frame that follows [Engine.update]. *)
Ltac quiet_dispatch :=
  match goal with
  | |- context [result_state (bind ?m ?k) ?s0] =>
      let Hq := fresh "Hq" in
      assert (Hq : quiet (bind m k))
        by (unfold _triggerCollisionEvents, _triggerMouseEvents; quiet_steps);
      destruct (Hq s0) as (? & ? & ?)
  | |- context [events (bind ?m ?k) ?s0] =>
      let Hq := fresh "Hq" in
      assert (Hq : quiet (bind m k))
        by (unfold _triggerCollisionEvents, _triggerMouseEvents; quiet_steps);
      destruct (Hq s0) as (? & ? & ?)
  end.

Lemma run_eta (m : M unit) (s : @State H) :
  m s = (tt, result_state m s, events m s).
Proof. unfold result_state, events. by destruct (m s) as [[[] ?] ?]. Qed.

(** A frame of a disabled engine. *)
Lemma render_disabled timestamp (s : State) :
  enabled (eng s) = false ->
  render timestamp s = (tt, s, [RequestAnimationFrame]).
Proof.
  intros Hoff. unfold render, bind, log, gets. by rewrite Hoff.
Qed.

(** A frame of an enabled engine: the timing is brought up to date, then
    [Engine.update] runs on the new delta and correction, then the events
    are dispatched. *)
Lemma render_enabled timestamp (s : State) :
  enabled (eng s) = true ->
  let now := frame_timestamp timestamp in
  let t0 := timing (eng s) in
  let history :=
    slice_last _deltaSampleSize (deltaHistory (loc s) ++ [raw_delta t0 now]) in
  let d := limit_delta t0 (Math_min history) in
  let c := (d / delta t0)%Q in
  exists s' fps' post,
    let e' := set_timing (eng s)
                {| fps := fps'; timestamp := now; delta := d; correction := c;
                   deltaMin := deltaMin t0; deltaMax := deltaMax t0 |} in
    render timestamp s =
      (tt, s',
       [RequestAnimationFrame;
        Invoke (Events_trigger "beforeTick" (TickEvent now));
        Invoke (Events_trigger "tick beforeUpdate" (TickEvent now))]
       ++ update_events e' d c ++ post)
    /\ eng s' = e'
    /\ deltaHistory (loc s') = history
    /\ Forall after_update_entry post.
Proof.
  intros Hen. cbn zeta.
  eexists _, _, _. split; [|split; [|split]].
  - unfold render. etrans.
    { eapply bind_run; [reflexivity|].
      eapply bind_run; [reflexivity|].
      cbn beta. rewrite Hen. cbn [negb].
      eapply bind_run; [reflexivity|].
      eapply bind_run; [reflexivity|].
      eapply bind_run; [reflexivity|].
      eapply bind_run; [apply update_spec|].
      apply run_eta. }
    cbn [app eng loc heap fst snd]. reflexivity.
  - quiet_dispatch. cbn [eng loc] in *. congruence.
  - quiet_dispatch. cbn [eng loc deltaHistory] in *.
    match goal with Hl : loc _ = _ |- _ => by rewrite Hl end.
  - quiet_dispatch. done.
Qed.

Ltac no_triggers :=
  repeat first
    [ apply Forall_nil_2
    | apply Forall_cons_2
    | apply Forall_app_2
    | apply Forall_replicate
    | (intros (n & o & Heq); discriminate)
    | (intros (o & [Heq|[Heq|Heq]]); discriminate) ].

Lemma update_events_no_trigger e delta correction :
  Forall (fun ev => ~ trigger ev) (update_events e delta correction).
Proof. tick_cases e; no_triggers. Qed.

Lemma collision_trigger_trigger ev : collision_trigger ev -> trigger ev.
Proof. intros (o & [-> | [-> | ->]]); by eexists _, _. Qed.

Lemma render_enabled_shape timestamp (s : State) :
  enabled (eng s) = true ->
  exists e' d c post,
    events (render timestamp) s =
      [RequestAnimationFrame;
       Invoke (Events_trigger "beforeTick" (TickEvent (frame_timestamp timestamp)));
       Invoke (Events_trigger "tick beforeUpdate"
                 (TickEvent (frame_timestamp timestamp)))]
      ++ update_events e' d c ++ post
    /\ Forall after_update_entry post.
Proof.
  intros Hen.
  destruct (render_enabled timestamp s Hen) as (s' & fps' & post & Heq & _ & _ & Hpost).
  unfold events. rewrite Heq. by eexists _, _, _, _.
Qed.

(** C2: Engine.update triggers no event at all, and in every frame of
    Engine.run each trigger of collisionStart, collisionActive or
    collisionEnd comes after Engine.update has returned. *)
Theorem collision_events_after_update timestamp delta correction (s : State) :
  Forall (fun ev => ~ trigger ev) (events (update sem delta correction) s)
  /\ only_after collision_trigger Return_update (events (render timestamp) s).
Proof.
  split.
  - rewrite update_trace. apply update_events_no_trigger.
  - destruct (enabled (eng s)) eqn:Hen.
    + destruct (render_enabled_shape timestamp s Hen)
        as (e' & d & c & post & -> & _).
      pose proof (update_events_no_trigger e' d c) as Hno.
      unfold update_events in *.
      apply Forall_cons in Hno as [Hno0 Hno].
      apply Forall_app in Hno as [Hno _].
      match goal with
      | |- only_after _ _ (?pre ++ (?en :: ?cs ++ [?r]) ++ ?post) =>
          replace (pre ++ (en :: cs ++ [r]) ++ post)
            with ((pre ++ en :: cs) ++ r :: post)
            by (flatten_trace; reflexivity)
      end.
      apply only_after_mark.
      * apply Forall_app_2; [no_triggers|].
        apply Forall_cons_2; [no_triggers|].
        eapply Forall_impl; [exact Hno|].
        intros ev Hev Hc. by apply Hev, collision_trigger_trigger.
      * intros (o & [Heq'|[Heq'|Heq']]); discriminate.
    + unfold events. rewrite (render_disabled timestamp s Hen). cbn [snd].
      intros j b Hj Hb.
      destruct j; cbn in Hj; [|discriminate].
      simplify_eq. destruct Hb as (o & [Hb|[Hb|Hb]]); discriminate.
Qed.

Lemma update_events_manager e delta correction :
  Invoke (Manager_updatePairs (timestamp (timing e)))
    ∈ update_events e delta correction
  /\ Invoke (Manager_removeOldPairs (timestamp (timing e)))
    ∈ update_events e delta correction.
Proof. tick_cases e; split; set_solver. Qed.

(** In a frame the Manager is handed the timestamp of the frame. *)
Lemma frame_pairs_timestamp t (s : State) :
  enabled (eng s) = true ->
  Invoke (Manager_updatePairs (frame_timestamp t))
    ∈ events (render t) s
  /\ Invoke (Manager_removeOldPairs (frame_timestamp t))
    ∈ events (render t) s.
Proof.
  intros Hen.
  destruct (render_enabled t s Hen) as (s' & fps' & post & Heq & _).
  cbn zeta in Heq. unfold events. rewrite Heq. cbn [snd].
  match type of Heq with
  | context [update_events ?e ?d ?c] =>
      destruct (update_events_manager e d c) as [Hu Hr]
  end.
  cbn [timing set_timing timestamp] in Hu, Hr.
  split; apply elem_of_app; right; apply elem_of_app; by left.
Qed.


(** Over the frames of a run the history holds the last up-to-8 raw frame
    deltas. *)
Lemma result_state_bind (m : M unit) (k : unit -> M unit) (s : @State H) :
  result_state (bind m k) s = result_state (k tt) (result_state m s).
Proof.
  unfold result_state, bind.
  destruct (m s) as [[[] s1] t1]. cbn. by destruct (k tt s1) as [[? ?] ?].
Qed.

Lemma frames_history timestamps (s : State) :
  enabled (eng s) = true ->
  (length (deltaHistory (loc s)) <= _deltaSampleSize)%nat ->
  deltaHistory (loc (result_state (frames timestamps) s))
  = slice_last _deltaSampleSize
      (deltaHistory (loc s)
       ++ raw_deltas (timestamp (timing (eng s))) timestamps).
Proof.
  revert s. induction timestamps as [|t ts IH]; intros s Hen Hlen.
  - cbn. rewrite app_nil_r. by rewrite (slice_last_short _ _ Hlen).
  - cbn [frames raw_deltas].
    change (frames (t :: ts)) with (bind (render t) (fun _ => frames ts)).
    rewrite result_state_bind.
    destruct (render_enabled t s Hen) as (s1 & fps1 & post & Heq & Heng & Hhist & _).
    cbn zeta in Heq, Heng.
    assert (Hs1 : result_state (render t) s = s1)
      by (unfold result_state; by rewrite Heq).
    rewrite Hs1. rewrite IH.
    + rewrite Hhist, Heng. cbn [timing set_timing timestamp].
      unfold raw_delta. rewrite slice_last_app. by rewrite <- app_assoc.
    + by rewrite Heng.
    + rewrite Hhist. apply slice_last_length.
Qed.

Lemma run_history timestamps (s : State) :
  enabled (eng s) = true ->
  deltaHistory (loc (result_state (run timestamps) s))
  = slice_last _deltaSampleSize
      (raw_deltas (timestamp (timing (eng s))) (None :: (Some <$> timestamps))).
Proof.
  intros Hen. unfold run. rewrite result_state_bind.
  rewrite frames_history; [done|done|cbn; lia].
Qed.

(** The sleeping switch of a created engine reads as off unless the caller
    set it. *)
Lemma create_enableSleeping extend Render_create element options o dom :
  extend_laws extend ->
  create extend Render_create element options = Ok (o, dom) ->
  caller_enableSleeping element options = None ->
  default false (Obj.enableSleeping o) = false.
Proof.
  intros Hlaws Hcreate Hcaller. unfold create, complete in Hcreate.
  destruct element as [el|obj|]; [| |discriminate];
    cbn [isElement] in Hcreate; cbn in Hcaller;
    repeat match type of Hcreate with
           | context [match ?x with _ => _ end] => destruct x
           end;
    simplify_eq; cbn [Obj.enableSleeping];
    rewrite ?(extend_enableSleeping _ Hlaws) by done;
    rewrite ?Hcaller; done.
Qed.

Lemma update_no_sleeping_call delta correction (s : State) :
  enableSleeping (eng s) = false ->
  Forall (fun ev => ~ sleeping_call ev) (events (update sem delta correction) s).
Proof.
  intros Hoff. rewrite update_trace. tick_cases (eng s); try discriminate;
    repeat first
      [ apply Forall_nil_2
      | apply Forall_cons_2
      | apply Forall_app_2
      | apply Forall_replicate
      | (intros [Heq|Heq]; discriminate) ].
Qed.

(** C9: the defaults of Engine.create have enableSleeping false, so that a
    created engine reads it as off unless the caller set it; and in every
    tick of an engine whose enableSleeping is off Engine.update calls
    neither Sleeping.update nor Sleeping.afterCollisions. *)
Theorem sleeping_off_by_default :
  Obj.enableSleeping defaults = Some false
  /\ (forall extend Render_create element options o dom,
        extend_laws extend ->
        create extend Render_create element options = Ok (o, dom) ->
        caller_enableSleeping element options = None ->
        default false (Obj.enableSleeping o) = false
        /\ forall e, engine_of o = Some e -> enableSleeping e = false)
  /\ (forall delta correction (s : State),
        enableSleeping (eng s) = false ->
        Forall (fun ev => ~ sleeping_call ev)
               (events (update sem delta correction) s)).
Proof.
  split; [done|]. split.
  - intros extend Render_create element options o dom Hlaws Hcreate Hcaller.
    pose proof (create_enableSleeping _ _ _ _ _ _ Hlaws Hcreate Hcaller) as Hoff.
    split; [exact Hoff|]. intros e He.
    unfold engine_of in He.
    repeat match type of He with
           | context [match ?x with _ => _ end] => destruct x
           end; simplify_eq. exact Hoff.
  - apply update_no_sleeping_call.
Qed.

(** C10: a frame of a disabled engine requests the next animation frame
    and does nothing else: it makes no call, triggers no event, and leaves
    the engine with its timing, the closure of Engine.run and the world as
    they were. *)
Theorem disabled_frame_changes_nothing timestamp (s : State) :
  enabled (eng s) = false ->
  result_state (render timestamp) s = s
  /\ events (render timestamp) s = [RequestAnimationFrame].
Proof.
  intros Hoff. unfold result_state, events.
  by rewrite (render_disabled timestamp s Hoff).
Qed.

(** ** Further properties of Engine.update *)

(** X1: every tick opens with Metrics.reset, Sleeping.update when sleeping
    is enabled, gravity, the mouse constraint and the integration over
    [delta * timeScale], and closes with Resolver.postSolvePosition,
    Metrics.update and Body.resetForcesAll; none of these calls occurs in
    between. *)
Theorem tick_prologue_and_epilogue delta correction (s : State) :
  exists middle,
    events (update sem delta correction) s
    = [Enter_update delta correction; Invoke Metrics_reset]
      ++ (if enableSleeping (eng s) then [Invoke Sleeping_update] else [])
      ++ [Invoke Body_applyGravityAll; Invoke MouseConstraint_update;
          Invoke (Body_updateAll (delta * timeScale (eng s)) correction)]
      ++ middle
      ++ [Invoke Resolver_postSolvePosition; Invoke Metrics_update;
          Invoke Body_resetForcesAll; Return_update]
    /\ Forall (fun ev => ~ fixed_entry ev) middle.
Proof.
  rewrite update_trace. set (e := eng s).
  set (b := broadphase_current (broadphase e)).
  exists (Invoke <$>
            (replicate (Z.to_nat (constraintIterations e)) Constraint_updateAll
             ++ match controller b with
                | Some c => [Controller_update c;
                             Detector_apply (detector b) instance_pairsList]
                | None => [Detector_apply (detector b) world_bodies]
                end
             ++ [Manager_updatePairs (timestamp (timing e));
                 Manager_removeOldPairs (timestamp (timing e))]
             ++ (if enableSleeping e then [Sleeping_afterCollisions] else [])
             ++ [Resolver_preSolveVelocity]
             ++ replicate (Z.to_nat (velocityIterations e)) Resolver_solveVelocity
             ++ replicate (Z.to_nat (positionIterations e)) Resolver_solvePosition)).
  subst b. tick_cases e; (split; [reflexivity|]);
    repeat first
      [ apply Forall_nil_2
      | apply Forall_cons_2
      | apply Forall_app_2
      | apply Forall_replicate
      | (intros Hf; exact Hf) ].
Qed.

Ltac no_broadphase_calls :=
  repeat first
    [ apply Forall_nil_2
    | apply Forall_cons_2
    | apply Forall_app_2
    | apply Forall_replicate
    | (intros [[c' Heq] | (d' & src' & Heq)]; discriminate) ].

(** X2: every tick makes one detector call, that of the selected
    broadphase.  When the broadphase has a controller, the controller is
    updated once, right before, and the detector is handed its pairs list;
    when it has none (brute force), no controller is updated and the
    detector is handed all the bodies of the world. *)
Theorem tick_broadphase_selection delta correction (s : State) :
  let b := broadphase_current (broadphase (eng s)) in
  exists pre post,
    events (update sem delta correction) s
    = pre
      ++ match controller b with
         | Some c => [Invoke (Controller_update c);
                      Invoke (Detector_apply (detector b) instance_pairsList)]
         | None => [Invoke (Detector_apply (detector b) world_bodies)]
         end
      ++ post
    /\ Forall (fun ev => ~ broadphase_call ev) pre
    /\ Forall (fun ev => ~ broadphase_call ev) post.
Proof.
  cbn zeta. rewrite update_trace. set (e := eng s).
  exists (Enter_update delta correction
          :: (Invoke <$>
                ([Metrics_reset]
                 ++ (if enableSleeping e then [Sleeping_update] else [])
                 ++ [Body_applyGravityAll; MouseConstraint_update;
                     Body_updateAll (delta * timeScale e) correction]
                 ++ replicate (Z.to_nat (constraintIterations e))
                      Constraint_updateAll))),
    ((Invoke <$>
        ([Manager_updatePairs (timestamp (timing e));
          Manager_removeOldPairs (timestamp (timing e))]
         ++ (if enableSleeping e then [Sleeping_afterCollisions] else [])
         ++ [Resolver_preSolveVelocity]
         ++ replicate (Z.to_nat (velocityIterations e)) Resolver_solveVelocity
         ++ replicate (Z.to_nat (positionIterations e)) Resolver_solvePosition
         ++ [Resolver_postSolvePosition; Metrics_update; Body_resetForcesAll]))
     ++ [Return_update]).
  tick_cases e; (split; [reflexivity|]); split; no_broadphase_calls.
Qed.

(** ** The event triggers *)

Local Abbreviation triggerCollisionEvents :=
  (_triggerCollisionEvents sem collisionStart collisionActive collisionEnd).
Local Abbreviation triggerMouseEvents :=
  (_triggerMouseEvents sem mousemove mousedown mouseup).

Lemma length_pos_nonempty {A} (l : list A) :
  (0 <? length l)%nat = true -> l <> [].
Proof. by destruct l. Qed.

Lemma length_zero_empty {A} (l : list A) :
  (0 <? length l)%nat = false -> l = [].
Proof. by destruct l. Qed.

(** X4: when the three collision lists are empty, _triggerCollisionEvents
    triggers nothing and changes nothing. *)
Theorem no_collisions_no_events (s : State) :
  collisionStart (heap s) = [] ->
  collisionActive (heap s) = [] ->
  collisionEnd (heap s) = [] ->
  triggerCollisionEvents s = (tt, s, []).
Proof.
  intros Hs Ha He. destruct s as [e l h]. cbn [heap] in *.
  unfold _triggerCollisionEvents, bind, gets, when, call, ret. cbn [heap].
  rewrite Hs. cbn. rewrite Ha. cbn. by rewrite He.
Qed.

Lemma when_call b c (s : State) :
  when b (call sem c) s
  = (tt, {| eng := eng s; loc := loc s;
            heap := if b then sem c (heap s) else heap s |},
     if b then [Invoke c] else []).
Proof. destruct b; [done|]. by destruct s. Qed.

Lemma gets_run {A} (f : @State H -> A) (s : @State H) : gets f s = (f s, s, []).
Proof. done. Qed.

(** The three conditional triggers, with the world each one finds. *)
Lemma triggerCollisionEvents_run (s : State) :
  let h0 := heap s in
  let b0 := (0 <? length (collisionStart h0))%nat in
  let c0 := Events_trigger "collisionStart" (PairsEvent (collisionStart h0)) in
  let h1 := if b0 then sem c0 h0 else h0 in
  let b1 := (0 <? length (collisionActive h1))%nat in
  let c1 := Events_trigger "collisionActive" (PairsEvent (collisionActive h1)) in
  let h2 := if b1 then sem c1 h1 else h1 in
  let b2 := (0 <? length (collisionEnd h2))%nat in
  let c2 := Events_trigger "collisionEnd" (PairsEvent (collisionEnd h2)) in
  triggerCollisionEvents s
  = (tt, {| eng := eng s; loc := loc s;
            heap := if b2 then sem c2 h2 else h2 |},
     (if b0 then [Invoke c0] else [])
     ++ (if b1 then [Invoke c1] else [])
     ++ (if b2 then [Invoke c2] else [])).
Proof.
  cbn zeta. unfold _triggerCollisionEvents.
  etrans.
  { eapply bind_run; [apply gets_run|]. cbn beta.
    eapply bind_run; [apply when_call|].
    eapply bind_run; [apply gets_run|]. cbn beta.
    eapply bind_run; [apply when_call|].
    eapply bind_run; [apply gets_run|]. cbn beta.
    apply when_call. }
  cbn [heap eng loc app]. reflexivity.
Qed.

Lemma fires_at_most_once name pairs :
  at_most_one_event name
    (if (0 <? length pairs)%nat
     then [Invoke (Events_trigger name (PairsEvent pairs))] else []).
Proof.
  destruct (0 <? length pairs)%nat eqn:Hp; [right|by left].
  exists pairs. split; [by apply length_pos_nonempty|done].
Qed.

(** X5: _triggerCollisionEvents triggers collisionStart, collisionActive
    and collisionEnd in this order, each at most once and never with an
    empty list of pairs; collisionStart is triggered exactly when the list
    is not empty on entry, with that list. *)
Theorem collision_events_in_order (s : State) :
  exists starts actives ends,
    events triggerCollisionEvents s = starts ++ actives ++ ends
    /\ at_most_one_event "collisionStart" starts
    /\ at_most_one_event "collisionActive" actives
    /\ at_most_one_event "collisionEnd" ends
    /\ (collisionStart (heap s) <> [] ->
        starts = [Invoke (Events_trigger "collisionStart"
                            (PairsEvent (collisionStart (heap s))))])
    /\ (collisionStart (heap s) = [] -> starts = []).
Proof.
  unfold events. rewrite triggerCollisionEvents_run. cbn [snd].
  eexists _, _, _. split; [reflexivity|].
  split; [apply fires_at_most_once|].
  split; [apply fires_at_most_once|].
  split; [apply fires_at_most_once|].
  split.
  - intros Hne. by destruct (collisionStart (heap s)).
  - by intros ->.
Qed.

Lemma triggerMouseEvents_run (s : State) :
  let h0 := heap s in
  let c0 := Events_trigger "mousemove" MouseEvent in
  let h1 := if mousemove h0 then sem c0 h0 else h0 in
  let c1 := Events_trigger "mousedown" MouseEvent in
  let h2 := if mousedown h1 then sem c1 h1 else h1 in
  let c2 := Events_trigger "mouseup" MouseEvent in
  let h3 := if mouseup h2 then sem c2 h2 else h2 in
  triggerMouseEvents s
  = (tt, {| eng := eng s; loc := loc s;
            heap := sem Mouse_clearSourceEvents h3 |},
     ((if mousemove h0 then [Invoke c0] else [])
      ++ (if mousedown h1 then [Invoke c1] else [])
      ++ (if mouseup h2 then [Invoke c2] else []))
     ++ [Invoke Mouse_clearSourceEvents]).
Proof.
  cbn zeta. unfold _triggerMouseEvents.
  etrans.
  { eapply bind_run; [apply gets_run|]. cbn beta.
    eapply bind_run; [apply when_call|].
    eapply bind_run; [apply gets_run|]. cbn beta.
    eapply bind_run; [apply when_call|].
    eapply bind_run; [apply gets_run|]. cbn beta.
    eapply bind_run; [apply when_call|].
    reflexivity. }
  cbn [heap eng loc app]. by rewrite <- !app_assoc.
Qed.

Lemma fires_mouse (b : bool) name :
  Forall mouse_trigger
    (if b then [Invoke (Events_trigger name MouseEvent)] else []).
Proof. destruct b; repeat constructor. by exists name. Qed.

(** X6: _triggerMouseEvents triggers at most the three mouse events and
    then always clears the source events of the mouse, once, as its last
    call; when the mouse has no source event this is its only call. *)
Theorem mouse_events_then_clear (s : State) :
  exists mice,
    events triggerMouseEvents s = mice ++ [Invoke Mouse_clearSourceEvents]
    /\ Forall mouse_trigger mice
    /\ (length mice <= 3)%nat
    /\ (mousemove (heap s) = false -> mousedown (heap s) = false ->
        mouseup (heap s) = false -> mice = []).
Proof.
  unfold events. rewrite triggerMouseEvents_run. cbn [snd].
  eexists. split; [reflexivity|]. split; [|split].
  - repeat apply Forall_app_2; apply fires_mouse.
  - rewrite !length_app.
    repeat match goal with
           | |- context [if ?b then _ else _] => destruct b
           end; cbn; lia.
  - intros Hm Hd Hu. rewrite Hm. cbn. rewrite Hd. cbn. by rewrite Hu.
Qed.

(** ** Frames in full *)

Lemma update_timing_run now (s : @State H) :
  update_timing now s
  = ((frame_delta (timing (eng s)) (loc s) now,
      (frame_delta (timing (eng s)) (loc s) now / delta (timing (eng s)))%Q),
     {| eng := set_timing (eng s) (next_timing (timing (eng s)) (loc s) now);
        loc := next_locals (timing (eng s)) (loc s) now;
        heap := heap s |},
     []).
Proof. reflexivity. Qed.

(** A frame of an enabled engine, step by step. *)
Lemma render_enabled_run timestamp (s : State) :
  enabled (eng s) = true ->
  let now := frame_timestamp timestamp in
  let event := TickEvent now in
  let t0 := timing (eng s) in
  let d := frame_delta t0 (loc s) now in
  let c := (d / delta t0)%Q in
  let e1 := set_timing (eng s) (next_timing t0 (loc s) now) in
  let l1 := next_locals t0 (loc s) now in
  let h1 := sem (Events_trigger "tick beforeUpdate" event)
              (sem (Events_trigger "beforeTick" event) (heap s)) in
  let s2 := {| eng := e1; loc := l1;
               heap := apply_calls sem (update_calls e1 d c) h1 |} in
  let s3 := result_state triggerCollisionEvents s2 in
  let s4 := result_state triggerMouseEvents s3 in
  let h5 := sem (Events_trigger "afterUpdate beforeRender" event) (heap s4) in
  let h6 := if render_options_enabled (eng s) then sem Render_world h5 else h5 in
  render timestamp s
  = (tt,
     {| eng := e1; loc := l1;
        heap := sem (Events_trigger "afterTick afterRender" event) h6 |},
     [RequestAnimationFrame;
      Invoke (Events_trigger "beforeTick" event);
      Invoke (Events_trigger "tick beforeUpdate" event)]
     ++ update_events e1 d c
     ++ events triggerCollisionEvents s2
     ++ events triggerMouseEvents s3
     ++ [Invoke (Events_trigger "afterUpdate beforeRender" event)]
     ++ (if render_options_enabled (eng s) then [Invoke Render_world] else [])
     ++ [Invoke (Events_trigger "afterTick afterRender" event)]).
Proof.
  intros Hen. cbn zeta.
  pose proof (quiet_triggerCollisionEvents) as Hqc.
  pose proof (quiet_triggerMouseEvents) as Hqm.
  unfold render. etrans.
  { eapply bind_run; [reflexivity|].
    eapply bind_run; [reflexivity|].
    cbn beta. rewrite Hen. cbn [negb].
    eapply bind_run; [reflexivity|].
    eapply bind_run; [apply update_timing_run|].
    eapply bind_run; [reflexivity|].
    eapply bind_run; [apply update_spec|].
    eapply bind_run; [apply run_eta|].
    eapply bind_run; [apply run_eta|].
    eapply bind_run; [reflexivity|].
    eapply bind_run; [apply gets_run|]. cbn beta.
    eapply bind_run; [apply when_call|].
    reflexivity. }
  cbn [eng loc heap fst snd app].
  match goal with
  | |- context [result_state triggerMouseEvents ?s3] =>
      destruct (Hqm s3) as (Hem & Hlm & _);
      match s3 with
      | result_state triggerCollisionEvents ?s2 =>
          destruct (Hqc s2) as (Hec & Hlc & _)
      end
  end.
  cbn [eng loc] in *. rewrite Hem, Hlm, Hec, Hlc.
  cbn [set_timing render_options_enabled]. reflexivity.
Qed.

Lemma events_bind (m : M unit) (k : unit -> M unit) (s : @State H) :
  events (bind m k) s = events m s ++ events (k tt) (result_state m s).
Proof.
  unfold events, result_state, bind.
  destruct (m s) as [[[] s1] t1]. cbn. by destruct (k tt s1) as [[? ?] ?].
Qed.

Lemma fires_collision name pairs :
  name = "collisionStart" \/ name = "collisionActive" \/ name = "collisionEnd" ->
  Forall collision_trigger
    (if (0 <? length pairs)%nat
     then [Invoke (Events_trigger name (PairsEvent pairs))] else []).
Proof.
  intros Hname. destruct (0 <? length pairs)%nat; repeat constructor.
  exists (PairsEvent pairs). destruct Hname as [-> | [-> | ->]]; auto.
Qed.

Lemma occurrences_none c t :
  Forall (fun ev => ev <> Invoke c) t -> occurrences c t = 0%nat.
Proof.
  induction 1 as [|ev t Hev _ IH]; [done|].
  rewrite occurrences_skip; [done|]. by intros <-.
Qed.

Lemma update_events_no_render e delta correction :
  Forall (fun ev => ev <> Invoke Render_world) (update_events e delta correction).
Proof.
  tick_cases e;
    repeat first
      [ apply Forall_nil_2
      | apply Forall_cons_2
      | apply Forall_app_2
      | apply Forall_replicate
      | discriminate ].
Qed.

(** X7: a frame of an enabled engine whose stored timing.delta is not zero
    runs in this order: the request for the next frame, beforeTick,
    tick/beforeUpdate, Engine.update on the new delta and correction with
    the timing already stored, the collision events, the mouse events and
    the clearing of the mouse, afterUpdate/beforeRender, the rendering of
    the world, afterTick/afterRender.  The four tick events carry the
    timestamp of the frame, and the world is rendered once if
    render.options.enabled is set and not at all otherwise.  (The
    correction is a quotient by timing.delta: at zero line 140 divides by
    zero, which the rationals of this model do not render.) *)
Theorem frame_sequence timestamp (s : State) :
  enabled (eng s) = true ->
  ~ (delta (timing (eng s)) == 0)%Q ->
  let now := frame_timestamp timestamp in
  let event := TickEvent now in
  let d := frame_delta (timing (eng s)) (loc s) now in
  let e1 := set_timing (eng s) (next_timing (timing (eng s)) (loc s) now) in
  exists collisions mice,
    events (render timestamp) s
    = [RequestAnimationFrame;
       Invoke (Events_trigger "beforeTick" event);
       Invoke (Events_trigger "tick beforeUpdate" event)]
      ++ update_events e1 d (d / delta (timing (eng s)))
      ++ collisions
      ++ mice
      ++ [Invoke Mouse_clearSourceEvents;
          Invoke (Events_trigger "afterUpdate beforeRender" event)]
      ++ (if render_options_enabled (eng s) then [Invoke Render_world] else [])
      ++ [Invoke (Events_trigger "afterTick afterRender" event)]
    /\ Forall collision_trigger collisions
    /\ Forall mouse_trigger mice
    /\ occurrences Render_world (events (render timestamp) s)
       = if render_options_enabled (eng s) then 1%nat else 0%nat.
Proof.
  intros Hen _. cbn zeta.
  pose proof (render_enabled_run timestamp s Hen) as Hrun. cbn zeta in Hrun.
  change (events (render timestamp) s) with (snd (render timestamp s)).
  rewrite Hrun. cbn [snd]. clear Hrun.
  unfold events. rewrite triggerCollisionEvents_run, triggerMouseEvents_run.
  cbn [snd].
  match goal with
  | |- context [update_events ?e1 ?d ?c ++ ?cs ++ (?ms ++ [?clear]) ++ _] =>
      exists cs, ms;
      assert (Hcs : Forall collision_trigger cs)
        by (repeat apply Forall_app_2; apply fires_collision; auto);
      assert (Hms : Forall mouse_trigger ms)
        by (repeat apply Forall_app_2; apply fires_mouse);
      pose proof (update_events_no_render e1 d c) as Hup;
      generalize dependent cs; generalize dependent ms;
      generalize dependent (update_events e1 d c)
  end.
  intros up Hup ms Hms cs Hcs.
  split; [by rewrite <- !app_assoc|]. split; [done|]. split; [done|].
  rewrite !occurrences_app.
  rewrite (occurrences_none _ up Hup).
  rewrite (occurrences_none _ cs), (occurrences_none _ ms).
  - do 3 (rewrite occurrences_skip by discriminate). rewrite occurrences_nil.
    destruct (render_options_enabled (eng s)); count_calls.
  - eapply Forall_impl; [exact Hms|]. intros ev [name ->]. discriminate.
  - eapply Forall_impl; [exact Hcs|].
    intros ev (o & [-> | [-> | ->]]); discriminate.
Qed.

(** *** The state a frame leaves, and runs of frames *)

Lemma render_state timestamp (s : State) :
  let now := frame_timestamp timestamp in
  eng (result_state (render timestamp) s)
  = (if enabled (eng s)
     then set_timing (eng s) (next_timing (timing (eng s)) (loc s) now)
     else eng s)
  /\ loc (result_state (render timestamp) s)
     = (if enabled (eng s)
        then next_locals (timing (eng s)) (loc s) now
        else loc s).
Proof.
  cbn zeta. unfold result_state. destruct (enabled (eng s)) eqn:Hen.
  - pose proof (render_enabled_run timestamp s Hen) as Hrun.
    cbn zeta in Hrun. by rewrite Hrun.
  - by rewrite (render_disabled timestamp s Hen).
Qed.

Lemma frames_cons_events t ts (s : State) :
  events (frames (t :: ts)) s
  = events (render t) s ++ events (frames ts) (result_state (render t) s).
Proof.
  change (frames (t :: ts)) with (bind (render t) (fun _ => frames ts)).
  apply events_bind.
Qed.

Lemma frames_cons_state t ts (s : State) :
  result_state (frames (t :: ts)) s
  = result_state (frames ts) (result_state (render t) s).
Proof.
  change (frames (t :: ts)) with (bind (render t) (fun _ => frames ts)).
  apply result_state_bind.
Qed.

Lemma render_keeps_enabled timestamp (s : State) :
  enabled (eng (result_state (render timestamp) s)) = enabled (eng s).
Proof.
  destruct (render_state timestamp s) as [-> _].
  by destruct (enabled (eng s)) eqn:Hen.
Qed.

Lemma omap_none {A B} (f : A -> option B) l :
  Forall (fun x => f x = None) l -> omap f l = [].
Proof. induction 1 as [|x l Hx _ IH]; [done|]. cbn. by rewrite Hx. Qed.

Lemma update_entries_app t1 t2 :
  update_entries (t1 ++ t2) = update_entries t1 ++ update_entries t2.
Proof. apply omap_app. Qed.

Lemma update_entries_calls cs : update_entries (Invoke <$> cs) = [].
Proof. apply omap_none, Forall_fmap, Forall_true. done. Qed.

Lemma update_entries_update e d c :
  update_entries (update_events e d c) = [(d, c)].
Proof.
  unfold update_events. cbn.
  change (omap update_entry ?t) with (update_entries t).
  by rewrite update_entries_app, update_entries_calls.
Qed.

(** [Engine.update] is entered once in a frame of an enabled engine, with
    the delta and the correction of the frame. *)
Lemma update_entries_frame timestamp (s : State) :
  enabled (eng s) = true ->
  update_entries (events (render timestamp) s)
  = [(frame_delta (timing (eng s)) (loc s) (frame_timestamp timestamp),
      (frame_delta (timing (eng s)) (loc s) (frame_timestamp timestamp)
       / delta (timing (eng s)))%Q)].
Proof.
  intros Hen.
  pose proof (render_enabled_run timestamp s Hen) as Hrun. cbn zeta in Hrun.
  change (events (render timestamp) s) with (snd (render timestamp s)).
  rewrite Hrun. cbn [snd]. clear Hrun.
  unfold events. rewrite triggerCollisionEvents_run, triggerMouseEvents_run.
  cbn [snd].
  match goal with
  | |- context [update_events ?e1 ?d ?c ++ ?cs ++ (?ms ++ [?clear]) ++ _] =>
      assert (Hcs : update_entries cs = []);
      [|assert (Hms : update_entries ms = []);
        [|generalize dependent cs; generalize dependent ms]]
  end.
  - apply omap_none. eapply Forall_impl;
      [repeat apply Forall_app_2; apply fires_collision; auto|].
    intros ev (o & [-> | [-> | ->]]); done.
  - apply omap_none. eapply Forall_impl;
      [repeat apply Forall_app_2; apply fires_mouse|].
    by intros ev [name ->].
  - intros ms Hms cs Hcs.
    rewrite !update_entries_app, update_entries_update, Hcs, Hms.
    by destruct (render_options_enabled (eng s)).
Qed.

Lemma count_event_app ev t1 t2 :
  count_event ev (t1 ++ t2) = (count_event ev t1 + count_event ev t2)%nat.
Proof. unfold count_event. by rewrite filter_app, length_app. Qed.

Lemma count_event_none ev t :
  Forall (fun ev' => ev' <> ev) t -> count_event ev t = 0%nat.
Proof.
  unfold count_event. induction 1 as [|ev' t Hev _ IH]; [done|].
  rewrite filter_cons_False; [done|]. by intros ->.
Qed.

Lemma update_events_no_request e delta correction :
  Forall (fun ev => ev <> RequestAnimationFrame)
    (update_events e delta correction).
Proof.
  unfold update_events.
  apply Forall_cons_2; [done|]. apply Forall_app_2; [|by repeat constructor].
  apply Forall_fmap, Forall_true. done.
Qed.

Lemma count_request_frame timestamp (s : State) :
  count_event RequestAnimationFrame (events (render timestamp) s) = 1%nat.
Proof.
  destruct (enabled (eng s)) eqn:Hen.
  - pose proof (render_enabled_run timestamp s Hen) as Hrun. cbn zeta in Hrun.
    change (events (render timestamp) s) with (snd (render timestamp s)).
    rewrite Hrun. cbn [snd]. clear Hrun.
    unfold events. rewrite triggerCollisionEvents_run, triggerMouseEvents_run.
    cbn [snd].
    match goal with
    | |- context [update_events ?e1 ?d ?c ++ ?cs ++ (?ms ++ [?clear]) ++ _] =>
        pose proof (update_events_no_request e1 d c) as Hup;
        assert (Hcs : Forall (fun ev => ev <> RequestAnimationFrame) cs);
        [|assert (Hms : Forall (fun ev => ev <> RequestAnimationFrame) ms);
          [|generalize dependent cs; generalize dependent ms;
            generalize dependent (update_events e1 d c)]]
    end.
    + eapply Forall_impl;
        [repeat apply Forall_app_2; apply fires_collision; auto|].
      intros ev (o & [-> | [-> | ->]]); done.
    + eapply Forall_impl;
        [repeat apply Forall_app_2; apply fires_mouse|].
      by intros ev [name ->].
    + intros up Hup ms Hms cs Hcs.
      rewrite !count_event_app.
      rewrite (count_event_none _ up Hup), (count_event_none _ cs Hcs),
        (count_event_none _ ms Hms).
      by destruct (render_options_enabled (eng s)).
  - change (events (render timestamp) s) with (snd (render timestamp s)).
    by rewrite (render_disabled timestamp s Hen).
Qed.

(** X8: every frame asks the browser for the next one exactly once, whether
    the engine is enabled or not: a run of n frames holds n requests. *)
Theorem one_request_per_frame timestamps (s : State) :
  count_event RequestAnimationFrame (events (frames timestamps) s)
  = length timestamps.
Proof.
  revert s. induction timestamps as [|t ts IH]; intros s; [done|].
  rewrite frames_cons_events, count_event_app, count_request_frame, IH.
  done.
Qed.

Lemma frames_disabled timestamps (s : State) :
  enabled (eng s) = false ->
  frames timestamps s
  = (tt, s, replicate (length timestamps) RequestAnimationFrame).
Proof.
  intros Hoff. induction timestamps as [|t ts IH]; [done|].
  change (frames (t :: ts)) with (bind (render t) (fun _ => frames ts)).
  unfold bind. rewrite (render_disabled t s Hoff). by rewrite IH.
Qed.

(** X9: a run of a disabled engine only keeps the frame loop alive: each
    frame requests the next one and nothing else happens; the engine and the
    objects around it stay as they were, whatever the timestamps. *)
Theorem disabled_run_idles timestamps (s : State) :
  enabled (eng s) = false ->
  events (run timestamps) s
  = replicate (S (length timestamps)) RequestAnimationFrame
  /\ eng (result_state (run timestamps) s) = eng s
  /\ heap (result_state (run timestamps) s) = heap s.
Proof.
  intros Hoff. unfold events, result_state, run, bind, put_locals.
  cbn -[frames].
  rewrite frames_disabled by done.
  cbn. by rewrite length_fmap.
Qed.

Lemma same_configuration_refl e : same_configuration e e.
Proof. by repeat split. Qed.

Lemma same_configuration_trans e1 e2 e3 :
  same_configuration e1 e2 -> same_configuration e2 e3 ->
  same_configuration e1 e3.
Proof.
  unfold same_configuration. intros H12 H23.
  destruct_and!. repeat split; congruence.
Qed.

Lemma render_configuration timestamp (s : State) :
  same_configuration (eng s) (eng (result_state (render timestamp) s)).
Proof.
  destruct (render_state timestamp s) as [-> _].
  destruct (enabled (eng s)) eqn:Hen; [|apply same_configuration_refl].
  by repeat split.
Qed.

Lemma frames_configuration timestamps (s : State) :
  same_configuration (eng s) (eng (result_state (frames timestamps) s)).
Proof.
  revert s. induction timestamps as [|t ts IH]; intros s.
  - apply same_configuration_refl.
  - rewrite frames_cons_state.
    eapply same_configuration_trans; [apply render_configuration|apply IH].
Qed.

(** X10: of the engine, a run writes timing.fps, timing.timestamp,
    timing.delta and timing.correction only: the switches, the iteration
    counts, the time scale, the broadphase and the delta bounds are after any
    number of frames what they were before the run. *)
Theorem run_keeps_configuration timestamps (s : State) :
  same_configuration (eng s) (eng (result_state (run timestamps) s)).
Proof.
  unfold run. rewrite result_state_bind.
  apply (frames_configuration _ (result_state (put_locals run_init) s)).
Qed.

(** *** Deltas and corrections over a run *)

Lemma frame_delta_limited t l now : delta_limited t (frame_delta t l now).
Proof.
  unfold frame_delta. split; [apply limit_delta_floor|].
  split; [apply limit_delta_upper|apply limit_delta_lower].
Qed.

Lemma frames_chain timestamps (s : State) :
  enabled (eng s) = true ->
  exists deltas,
    length deltas = length timestamps
    /\ update_entries (events (frames timestamps) s)
       = ratio_chain (delta (timing (eng s))) deltas
    /\ Forall (delta_limited (timing (eng s))) deltas
    /\ delta (timing (eng (result_state (frames timestamps) s)))
       = default (delta (timing (eng s))) (last deltas).
Proof.
  revert s. induction timestamps as [|t ts IH]; intros s Hen.
  - by exists [].
  - destruct (render_state t s) as [Heng _]. rewrite Hen in Heng.
    destruct (IH (result_state (render t) s)) as (ds & Hlen & Hch & Hlim & Hlast).
    { by rewrite render_keeps_enabled. }
    rewrite Heng in Hch, Hlim, Hlast. cbn [timing set_timing next_timing delta] in *.
    exists (frame_delta (timing (eng s)) (loc s) (frame_timestamp t) :: ds).
    split; [cbn; by rewrite Hlen|].
    split; [|split].
    + rewrite frames_cons_events, update_entries_app.
      rewrite (update_entries_frame t s Hen), Hch. done.
    + apply Forall_cons_2; [apply frame_delta_limited|].
      eapply Forall_impl; [exact Hlim|]. intros d Hd. exact Hd.
    + rewrite frames_cons_state, Hlast.
      rewrite last_cons. by destruct (last ds).
Qed.

Lemma update_entries_elem d c t :
  (d, c) ∈ update_entries t <-> Enter_update d c ∈ t.
Proof.
  unfold update_entries. rewrite list_elem_of_omap. split.
  - intros (ev & Hev & Heq). destruct ev; try discriminate.
    cbn in Heq. by simplify_eq.
  - intros Hin. by exists (Enter_update d c).
Qed.

Lemma ratio_chain_positive previous deltas :
  (0 < previous)%Q -> Forall (Qlt 0) deltas ->
  Forall (fun dc => (0 < dc.1)%Q /\ (0 < dc.2)%Q) (ratio_chain previous deltas).
Proof.
  intros Hp Hds. revert previous Hp.
  induction Hds as [|d ds Hd _ IH]; intros previous Hp; [constructor|].
  cbn. constructor; [|by apply IH]. cbn. split; [done|].
  apply Qlt_shift_div_l; [done|]. by rewrite Qmult_0_l.
Qed.

Lemma ratio_chain_bounded lo hi previous deltas :
  (0 < lo)%Q ->
  (lo <= previous)%Q /\ (previous <= hi)%Q ->
  Forall (fun d => (lo <= d)%Q /\ (d <= hi)%Q) deltas ->
  Forall (fun dc => ((lo <= dc.1)%Q /\ (dc.1 <= hi)%Q)
                    /\ (lo / hi <= dc.2)%Q /\ (dc.2 <= hi / lo)%Q)
    (ratio_chain previous deltas).
Proof.
  intros Hlo Hp Hds. revert previous Hp.
  induction Hds as [|d ds Hd _ IH]; intros previous [Hp1 Hp2]; [constructor|].
  cbn. constructor; [|by apply IH]. cbn. destruct Hd as [Hd1 Hd2].
  assert (Hp : (0 < previous)%Q) by (eapply Qlt_le_trans; eauto).
  assert (Hhi : (0 < hi)%Q) by (eapply Qlt_le_trans; eauto).
  split; [done|]. split.
  - apply Qle_shift_div_l; [done|].
    apply Qle_trans with (lo / hi * hi)%Q.
    + apply Qmult_le_l; [|done].
      apply Qlt_shift_div_l; [done|]. by rewrite Qmult_0_l.
    + apply Qle_trans with lo; [|done].
      apply Qle_lteq. right. field. intros Hz. rewrite Hz in Hhi.
      by apply Qlt_irrefl in Hhi.
  - apply Qle_shift_div_r; [done|].
    apply Qle_trans with (hi / lo * lo)%Q.
    + apply Qle_trans with hi; [done|].
      apply Qle_lteq. right. field. intros Hz. rewrite Hz in Hlo.
      by apply Qlt_irrefl in Hlo.
    + apply Qmult_le_l; [|done].
      apply Qlt_shift_div_l; [done|]. by rewrite Qmult_0_l.
Qed.

Lemma run_chain timestamps (s : State) :
  enabled (eng s) = true ->
  exists deltas,
    length deltas = S (length timestamps)
    /\ update_entries (events (run timestamps) s)
       = ratio_chain (delta (timing (eng s))) deltas
    /\ Forall (delta_limited (timing (eng s))) deltas
    /\ delta (timing (eng (result_state (run timestamps) s)))
       = default (delta (timing (eng s))) (last deltas).
Proof.
  intros Hen. unfold run.
  destruct (frames_chain (None :: (Some <$> timestamps))
              (result_state (put_locals run_init) s) Hen)
    as (ds & Hlen & Hch & Hlim & Hlast).
  exists ds. cbn [length] in Hlen. rewrite length_fmap in Hlen.
  rewrite result_state_bind, events_bind. done.
Qed.

(** X11: in a run of an enabled engine with positive delta bounds and a
    positive stored delta, Engine.update is entered exactly once per frame;
    the correction it receives is the delta of the frame divided by the
    delta of the frame before (by the stored timing.delta in the first
    frame); every delta and every correction is positive, no delta exceeds
    deltaMax, and timing.delta ends as the delta of the last frame. *)
Theorem run_corrections_chain timestamps (s : State) :
  enabled (eng s) = true ->
  (0 < deltaMin (timing (eng s)))%Q ->
  (0 < deltaMax (timing (eng s)))%Q ->
  (0 < delta (timing (eng s)))%Q ->
  exists deltas,
    length deltas = S (length timestamps)
    /\ update_entries (events (run timestamps) s)
       = ratio_chain (delta (timing (eng s))) deltas
    /\ Forall (fun dc => (0 < dc.1)%Q /\ (0 < dc.2)%Q
                         /\ (dc.1 <= deltaMax (timing (eng s)))%Q)
         (update_entries (events (run timestamps) s))
    /\ last deltas
       = Some (delta (timing (eng (result_state (run timestamps) s)))).
Proof.
  intros Hen Hmin Hmax Hd0.
  destruct (run_chain timestamps s Hen) as (ds & Hlen & Hch & Hlim & Hlast).
  exists ds. split; [done|]. split; [done|].
  assert (Hpos : Forall (Qlt 0) ds).
  { eapply Forall_impl; [exact Hlim|]. intros d (Hfloor & _ & _).
    eapply Qlt_le_trans; [|exact Hfloor].
    by apply Q.min_glb_lt. }
  split.
  - rewrite Hch.
    pose proof (ratio_chain_positive _ _ Hd0 Hpos) as Hrp.
    assert (Hup : Forall (fun dc : Q * Q => (dc.1 <= deltaMax (timing (eng s)))%Q)
                    (ratio_chain (delta (timing (eng s))) ds)).
    { clear -Hlim. generalize (delta (timing (eng s))) at 1.
      induction Hlim as [|d ds' Hd _ IH]; intros p; [constructor|].
      cbn. constructor; [apply Hd|apply IH]. }
    rewrite Forall_forall in Hrp, Hup. apply Forall_forall.
    intros dc Hdc. destruct (Hrp _ Hdc). split; [done|]. split; [done|].
    by apply Hup.
  - rewrite Hlast. destruct ds as [|d ds] using rev_ind; [done|].
    by rewrite last_snoc.
Qed.

(** X12: if moreover deltaMin <= deltaMax and the stored delta lies within
    the bounds, every tick of the run receives a delta within
    [deltaMin, deltaMax] and a correction within
    [deltaMin / deltaMax, deltaMax / deltaMin]. *)
Theorem run_correction_bounded timestamps (s : State) d c :
  enabled (eng s) = true ->
  let t0 := timing (eng s) in
  (0 < deltaMin t0)%Q ->
  (deltaMin t0 <= deltaMax t0)%Q ->
  (deltaMin t0 <= delta t0)%Q ->
  (delta t0 <= deltaMax t0)%Q ->
  Enter_update d c ∈ events (run timestamps) s ->
  ((deltaMin t0 <= d)%Q /\ (d <= deltaMax t0)%Q)
  /\ (deltaMin t0 / deltaMax t0 <= c)%Q
  /\ (c <= deltaMax t0 / deltaMin t0)%Q.
Proof.
  intros Hen t0 Hmin Hmm Hd1 Hd2 Hin.
  destruct (run_chain timestamps s Hen) as (ds & _ & Hch & Hlim & _).
  apply update_entries_elem in Hin. rewrite Hch in Hin.
  assert (Hds : Forall (fun d => (deltaMin t0 <= d)%Q /\ (d <= deltaMax t0)%Q) ds).
  { eapply Forall_impl; [exact Hlim|]. intros d' (_ & Hup & Hlow).
    split; [by apply Hlow|done]. }
  pose proof (ratio_chain_bounded _ _ _ _ Hmin (conj Hd1 Hd2) Hds) as Hb.
  rewrite Forall_forall in Hb. exact (Hb _ Hin).
Qed.

(** *** The delta and the fps a run leaves *)

Lemma limit_delta_bounds t t' d :
  deltaMin t' = deltaMin t -> deltaMax t' = deltaMax t ->
  limit_delta t' d = limit_delta t d.
Proof. unfold limit_delta. by intros -> ->. Qed.

Lemma frames_delta_of_history timestamps (s : State) :
  enabled (eng s) = true ->
  timestamps <> [] ->
  delta (timing (eng (result_state (frames timestamps) s)))
  = limit_delta (timing (eng s))
      (Math_min (deltaHistory (loc (result_state (frames timestamps) s)))).
Proof.
  revert s. induction timestamps as [|t ts IH]; intros s Hen Hne; [done|].
  rewrite frames_cons_state.
  destruct (render_state t s) as [Heng Hloc]. rewrite Hen in Heng, Hloc.
  destruct ts as [|t' ts].
  - cbn [frames]. unfold result_state at 1 3. cbn [ret fst snd].
    by rewrite Heng, Hloc.
  - rewrite IH; [|by rewrite render_keeps_enabled|done].
    apply limit_delta_bounds; by rewrite Heng.
Qed.

Lemma frames_timestamp timestamps (s : State) :
  enabled (eng s) = true ->
  timestamp (timing (eng (result_state (frames timestamps) s)))
  = default (timestamp (timing (eng s))) (frame_timestamp <$> last timestamps).
Proof.
  revert s. induction timestamps as [|t ts IH]; intros s Hen; [done|].
  rewrite frames_cons_state, IH by (by rewrite render_keeps_enabled).
  destruct (render_state t s) as [Heng _]. rewrite Hen in Heng.
  rewrite Heng, last_cons. by destruct (last ts).
Qed.

Lemma raw_deltas_length previous timestamps :
  length (raw_deltas previous timestamps) = length timestamps.
Proof.
  revert previous. induction timestamps as [|t ts IH]; intros p; [done|].
  cbn. by rewrite IH.
Qed.

(** X13: what a run of an enabled engine leaves behind: the delta history
    holds the last raw frame deltas of the run, at most _deltaSampleSize of
    them, a raw delta being the time since the frame before (since the
    stored timing.timestamp in the first frame) or _delta when that is 0;
    timing.delta is the least of them, limited to the delta bounds; and
    timing.timestamp is the timestamp of the last frame. *)
Theorem run_leaves_filtered_delta timestamps (s : State) :
  enabled (eng s) = true ->
  let t0 := timing (eng s) in
  let s' := result_state (run timestamps) s in
  let raw := raw_deltas (timestamp t0) (None :: (Some <$> timestamps)) in
  length raw = S (length timestamps)
  /\ deltaHistory (loc s') = slice_last _deltaSampleSize raw
  /\ delta (timing (eng s'))
     = limit_delta t0 (Math_min (slice_last _deltaSampleSize raw))
  /\ timestamp (timing (eng s'))
     = default 0%Q (frame_timestamp <$> last (Some <$> timestamps)).
Proof.
  intros Hen. cbn zeta.
  split; [|split; [by apply run_history|split]].
  - rewrite raw_deltas_length. cbn. by rewrite length_fmap.
  - rewrite <- (run_history timestamps s Hen).
    unfold run. rewrite result_state_bind.
    by rewrite frames_delta_of_history.
  - unfold run. rewrite result_state_bind.
    rewrite frames_timestamp by done.
    rewrite last_cons. by destruct (last (Some <$> timestamps)).
Qed.

Lemma num_or_zero t : (num_or t 0 == t)%Q.
Proof.
  unfold num_or. destruct (Qeq_bool t 0) eqn:Hz; [|reflexivity].
  apply Qeq_bool_iff in Hz. by rewrite Hz.
Qed.

Lemma frames_app_state ts1 ts2 (s : State) :
  result_state (frames (ts1 ++ ts2)) s
  = result_state (frames ts2) (result_state (frames ts1) s).
Proof.
  revert s. induction ts1 as [|t ts1 IH]; intros s; [done|].
  cbn [app]. by rewrite !frames_cons_state, IH.
Qed.

Lemma second_elapsed_false l now :
  (now - counterTimestamp l < 1000)%Q -> second_elapsed l now = false.
Proof.
  intros Hlt. unfold second_elapsed, Qge_bool.
  destruct (Qle_bool 1000 (now - counterTimestamp l)) eqn:Hle; [|done].
  apply Qle_bool_iff in Hle. by apply Qlt_not_le in Hlt.
Qed.

Lemma second_elapsed_true l now :
  (1000 <= now - counterTimestamp l)%Q -> second_elapsed l now = true.
Proof. intros Hle. by apply Qle_bool_iff. Qed.

(** Frames within a second of the last count leave the fps alone and are
    counted. *)
Lemma frames_within_second timestamps (s : State) :
  enabled (eng s) = true ->
  Forall (fun t => (frame_timestamp t - counterTimestamp (loc s) < 1000)%Q)
    timestamps ->
  let s' := result_state (frames timestamps) s in
  fps (timing (eng s')) = fps (timing (eng s))
  /\ frameCounter (loc s') = frameCounter (loc s) + Z.of_nat (length timestamps)
  /\ counterTimestamp (loc s') = counterTimestamp (loc s).
Proof.
  cbn zeta. intros Hen Hts. revert s Hen Hts.
  induction timestamps as [|t ts IH]; intros s Hen Hts.
  - cbn. split; [done|]. split; [lia|done].
  - apply Forall_cons in Hts as [Ht Hts].
    destruct (render_state t s) as [Heng Hloc]. rewrite Hen in Heng, Hloc.
    rewrite frames_cons_state.
    destruct (IH (result_state (render t) s)) as (Hfps & Hcount & Hstamp).
    { by rewrite render_keeps_enabled. }
    { rewrite Hloc. cbn [next_locals counterTimestamp].
      by rewrite (second_elapsed_false _ _ Ht). }
    rewrite Hfps, Hcount, Hstamp, Heng, Hloc.
    cbn [timing set_timing next_timing next_locals fps frameCounter
           counterTimestamp length].
    rewrite (second_elapsed_false _ _ Ht). split; [done|]. split; [lia|done].
Qed.

(** X14: the fps counter of a run.  Frames that arrive before 1000 ms do
    not write timing.fps; the first frame at 1000 ms or later, the n-th
    frame of the run, sets it to n times the seconds elapsed and restarts
    the count. *)
Theorem run_fps_counter timestamps t (s : State) :
  enabled (eng s) = true ->
  Forall (fun t' => (t' < 1000)%Q) timestamps ->
  (1000 <= t)%Q ->
  let s1 := result_state (run timestamps) s in
  let s2 := result_state (run (timestamps ++ [t])) s in
  let n := (Z.of_nat (length timestamps) + 2)%Z in
  (fps (timing (eng s1)) = fps (timing (eng s))
   /\ frameCounter (loc s1) = (n - 1)%Z)
  /\ (fps (timing (eng s2)) == inject_Z n * (t / 1000))%Q
  /\ frameCounter (loc s2) = 0%Z
  /\ (counterTimestamp (loc s2) == t)%Q.
Proof.
  intros Hen Hts Ht. cbn zeta.
  assert (Hin : forall ts, result_state (run ts) s
    = result_state (frames (None :: (Some <$> ts)))
        {| eng := eng s; loc := run_init; heap := heap s |}).
  { intros ts. unfold run. by rewrite result_state_bind. }
  set (s0 := {| eng := eng s; loc := run_init; heap := heap s |}) in *.
  assert (Hfirst : Forall
    (fun f => (frame_timestamp f - counterTimestamp (loc s0) < 1000)%Q)
    (None :: (Some <$> timestamps))).
  { apply Forall_cons_2; [done|]. apply Forall_fmap.
    eapply Forall_impl; [exact Hts|]. intros t' Ht'. cbn.
    rewrite num_or_zero. unfold Qminus. by rewrite Qplus_0_r. }
  set (fs := None :: (Some <$> timestamps)) in *.
  assert (Hlen : length fs = S (length timestamps))
    by (unfold fs; cbn; by rewrite length_fmap).
  destruct (frames_within_second fs s0 Hen Hfirst) as (Hfps & Hcount & Hstamp).
  rewrite Hlen in Hcount.
  change (frameCounter (loc s0)) with 0%Z in Hcount.
  change (counterTimestamp (loc s0)) with 0%Q in Hstamp.
  change (eng s0) with (eng s) in Hfps.
  set (s1 := result_state (frames fs) s0) in *.
  split.
  - rewrite Hin. fold fs s1. split; [exact Hfps|]. rewrite Hcount. lia.
  - rewrite Hin, fmap_app. cbn [fmap list_fmap].
    change (None :: (Some <$> timestamps) ++ [Some t]) with (fs ++ [Some t]).
    rewrite frames_app_state. fold s1.
    rewrite frames_cons_state.
    change (result_state (frames []) ?x) with x.
    destruct (render_state (Some t) s1) as [Heng Hloc].
    assert (Hen1 : enabled (eng s1) = true).
    { unfold s1. by destruct (frames_configuration fs s0) as (-> & _). }
    rewrite Hen1 in Heng, Hloc. rewrite Heng, Hloc.
    cbn [timing set_timing next_timing next_locals fps frameCounter
           counterTimestamp].
    assert (Hnow : (frame_timestamp (Some t) - counterTimestamp (loc s1) == t)%Q).
    { rewrite Hstamp. cbn [frame_timestamp]. rewrite num_or_zero.
      unfold Qminus. by rewrite Qplus_0_r. }
    rewrite second_elapsed_true by (by rewrite Hnow).
    split; [|split; [done|]].
    + rewrite Hnow, Hcount.
      replace (0 + Z.of_nat (S (length timestamps)) + 1)%Z
        with (Z.of_nat (length timestamps) + 2)%Z by lia.
      reflexivity.
    + cbn [frame_timestamp]. apply num_or_zero.
Qed.

End TickFacts.

(** ** Engine.create: the iteration counts *)

(** C3 (as amended): Engine.create, given an HTMLElement and options that
    do not set the iteration counts, returns an engine with
    velocityIterations 4 and positionIterations 6. *)
Theorem create_default_iterations extend Render_create el options :
  extend_laws extend ->
  own Obj.velocityIterations options = None ->
  own Obj.positionIterations options = None ->
  exists e dom,
    create extend Render_create (HTMLElement el) options = Ok (e, dom)
    /\ Obj.velocityIterations e = Some 4
    /\ Obj.positionIterations e = Some 6.
Proof.
  intros Hlaws Hv Hp.
  destruct (create_with_element extend Render_create el options Hlaws)
    as (e & dom & Hcreate & Hpos & Hvel & _).
  exists e, dom. split; [exact Hcreate|]. split.
  - rewrite Hvel. by rewrite (extend_velocityIterations _ Hlaws).
  - rewrite Hpos. by rewrite (extend_positionIterations _ Hlaws).
Qed.

(** [Engine.create(element, {input: {}})]. *)
Lemma create_default_iterations_witness :
  extend_laws Common_extend
  /\ own Obj.velocityIterations (Some bare_object) = None
  /\ own Obj.positionIterations (Some bare_object) = None
  /\ exists e dom,
       create Common_extend demo_Render_create (HTMLElement 0) (Some bare_object)
         = Ok (e, dom)
       /\ Obj.velocityIterations e = Some 4
       /\ Obj.positionIterations e = Some 6.
Proof.
  split; [exact Common_extend_laws|]. split; [reflexivity|]. split; [reflexivity|].
  apply (create_default_iterations Common_extend demo_Render_create 0%nat
           (Some bare_object) Common_extend_laws); reflexivity.
Defined.

(** C3 as stated fails when the first argument is not an element: the
    object given in its place becomes the engine and the defaults are
    dropped.  Here [Engine.create({input: {}})] returns an engine without
    iteration counts. *)
Lemma create_plain_object_drops_defaults :
  (exists e dom,
     create Common_extend demo_Render_create (PlainObject bare_object) None
       = Ok (e, dom)
     /\ Obj.velocityIterations e = None
     /\ Obj.positionIterations e = None)
  /\ ~ create_gives_default_iterations Common_extend demo_Render_create.
Proof.
  split.
  - by eexists _, _.
  - intros Hclaim.
    destruct (Hclaim (PlainObject bare_object) None eq_refl eq_refl)
      as (e & dom & Hcreate & Hv & _).
    cbn in Hcreate. by simplify_eq.
Qed.

(** ** Concrete ticks and frames *)

Example default_engine_created :
  exists o,
    create Common_extend demo_Render_create (HTMLElement 0) None
      = Ok (o, [appendChild 0%nat 0%nat])
    /\ engine_of o = Some default_engine.
Proof. by eexists. Qed.

Example default_tick_trace :
  events (update demo_sem 1 1) (initial_state default_engine) =
  [Enter_update 1 1;
   Invoke Metrics_reset;
   Invoke Body_applyGravityAll;
   Invoke MouseConstraint_update;
   Invoke (Body_updateAll (1 * 1) 1);
   Invoke Constraint_updateAll;
   Invoke (Controller_update Grid);
   Invoke (Detector_apply Detector_collisions instance_pairsList);
   Invoke (Manager_updatePairs 0);
   Invoke (Manager_removeOldPairs 0);
   Invoke Resolver_preSolveVelocity;
   Invoke Resolver_solveVelocity; Invoke Resolver_solveVelocity;
   Invoke Resolver_solveVelocity; Invoke Resolver_solveVelocity;
   Invoke Resolver_solvePosition; Invoke Resolver_solvePosition;
   Invoke Resolver_solvePosition; Invoke Resolver_solvePosition;
   Invoke Resolver_solvePosition; Invoke Resolver_solvePosition;
   Invoke Resolver_postSolvePosition;
   Invoke Metrics_update;
   Invoke Body_resetForcesAll;
   Return_update].
Proof. reflexivity. Qed.

(** C1 as stated fails: in the tick of the default engine the integrator
    call, Body.updateAll, is entry 4 of the trace and the first
    Resolver.solvePosition is entry 15, so the integrator does not come
    after the resolver phases. *)
Lemma integrator_runs_before_resolver :
  ~ in_order spec_before
      (events (update demo_sem 1 1) (initial_state default_engine)).
Proof.
  intros Hord.
  assert (Hsb : spec_before PositionSolve Integrate) by (right; auto).
  specialize (Hord PositionSolve Integrate Hsb 15%nat 4%nat
                (Invoke Resolver_solvePosition)
                (Invoke (Body_updateAll (1 * 1) 1))
                eq_refl eq_refl eq_refl eq_refl).
  lia.
Qed.

(** The default engine solves its constraints once per tick. *)
Lemma constraints_before_broadphase_witness :
  occurrences Constraint_updateAll
    (events (update demo_sem 1 1) (initial_state default_engine)) = 1%nat
  /\ exists e dom,
       create Common_extend demo_Render_create (HTMLElement 0)
         (Some bare_object) = Ok (e, dom)
       /\ Obj.constraintIterations e = Some 1.
Proof.
  pose proof (constraints_before_broadphase demo_sem 1 1
                (initial_state default_engine)) as (Hcount & _ & _ & Hcreate).
  split; [exact Hcount|].
  apply (Hcreate Common_extend demo_Render_create 0%nat (Some bare_object)
           Common_extend_laws eq_refl).
Defined.

(** The example Manager evicts, and the rest of the tick leaves the table
    alone. *)
Lemma table_sem_evicts ts table :
  no_stale_pair ts (table_sem (Manager_removeOldPairs ts) table).
Proof.
  unfold no_stale_pair, table_sem. apply Forall_forall.
  intros p Hp. by apply list_elem_of_filter in Hp as [Hp _].
Qed.

Lemma table_sem_keeps ts c table :
  after_eviction c -> no_stale_pair ts table -> no_stale_pair ts (table_sem c table).
Proof. by destruct c. Qed.

(** A tick at time 0 on a table with a pair last updated at -5000: the pair
    is gone when the tick ends. *)
Lemma pairs_merged_then_old_removed_witness :
  no_stale_pair 0
    (heap (result_state (update table_sem 1 1)
             {| eng := default_engine; loc := run_init; heap := stale_table |}))
  /\ ~ no_stale_pair 0 stale_table.
Proof.
  split.
  - apply (proj2 (pairs_merged_then_old_removed table_sem 1 1
                    {| eng := default_engine; loc := run_init;
                       heap := stale_table |}) no_stale_pair).
    + exact table_sem_evicts.
    + exact table_sem_keeps.
  - intros Hall. apply Forall_cons in Hall as [Hold _]. vm_compute in Hold.
    discriminate.
Defined.

(** The tick of the default engine with sleeping switched on. *)
Lemma sleeping_wake_before_solving_witness :
  enableSleeping (eng (initial_state sleeping_engine)) = true
  /\ (let t := events (update demo_sem 1 1) (initial_state sleeping_engine) in
      occurrences Sleeping_afterCollisions t = 1%nat
      /\ precedes manager_call (call_of Sleeping_afterCollisions) t
      /\ precedes (call_of Sleeping_afterCollisions) resolver_call t
      /\ exists pre post,
           t = pre
               ++ [Invoke (Manager_removeOldPairs 0);
                   Invoke Sleeping_afterCollisions;
                   Invoke Resolver_preSolveVelocity]
               ++ post).
Proof.
  split; [reflexivity|].
  apply (sleeping_wake_before_solving demo_sem 1 1 (initial_state sleeping_engine)).
  reflexivity.
Defined.

(** A frame at 16 ms of the default engine, disabled. *)
Lemma disabled_frame_changes_nothing_witness :
  enabled (eng (initial_state disabled_engine)) = false
  /\ result_state (demo_render (Some 16%Q)) (initial_state disabled_engine)
     = initial_state disabled_engine
  /\ events (demo_render (Some 16%Q)) (initial_state disabled_engine)
     = [RequestAnimationFrame].
Proof.
  split; [reflexivity|].
  apply (disabled_frame_changes_nothing demo_sem demo_collisionStart
           demo_collisionActive demo_collisionEnd demo_mouse demo_mouse
           demo_mouse (Some 16%Q) (initial_state disabled_engine)).
  reflexivity.
Defined.



(** A frame at 20 ms of the default engine: the raw delta 20 lies within the
    bounds and is passed unchanged; one pair has started and is active, so
    both events are triggered, after the return of Engine.update. *)
Example default_frame_trace :
  events (demo_render (Some 20%Q)) (initial_state default_engine) =
  [RequestAnimationFrame;
   Invoke (Events_trigger "beforeTick" (TickEvent 20));
   Invoke (Events_trigger "tick beforeUpdate" (TickEvent 20));
   Enter_update 20 (20 / _delta);
   Invoke Metrics_reset;
   Invoke Body_applyGravityAll;
   Invoke MouseConstraint_update;
   Invoke (Body_updateAll (20 * 1) (20 / _delta));
   Invoke Constraint_updateAll;
   Invoke (Controller_update Grid);
   Invoke (Detector_apply Detector_collisions instance_pairsList);
   Invoke (Manager_updatePairs 20);
   Invoke (Manager_removeOldPairs 20);
   Invoke Resolver_preSolveVelocity;
   Invoke Resolver_solveVelocity; Invoke Resolver_solveVelocity;
   Invoke Resolver_solveVelocity; Invoke Resolver_solveVelocity;
   Invoke Resolver_solvePosition; Invoke Resolver_solvePosition;
   Invoke Resolver_solvePosition; Invoke Resolver_solvePosition;
   Invoke Resolver_solvePosition; Invoke Resolver_solvePosition;
   Invoke Resolver_postSolvePosition;
   Invoke Metrics_update;
   Invoke Body_resetForcesAll;
   Return_update;
   Invoke (Events_trigger "collisionStart" (PairsEvent [7%nat]));
   Invoke (Events_trigger "collisionActive" (PairsEvent [7%nat]));
   Invoke Mouse_clearSourceEvents;
   Invoke (Events_trigger "afterUpdate beforeRender" (TickEvent 20));
   Invoke Render_world;
   Invoke (Events_trigger "afterTick afterRender" (TickEvent 20))].
Proof. vm_compute. reflexivity. Qed.


(** [Engine.create(element)] and a tick of the engine it returns. *)
Lemma sleeping_off_by_default_witness :
  exists o dom,
    create Common_extend demo_Render_create (HTMLElement 0) None = Ok (o, dom)
    /\ caller_enableSleeping (HTMLElement 0) None = None
    /\ default false (Obj.enableSleeping o) = false
    /\ engine_of o = Some default_engine
    /\ Forall (fun ev => ~ sleeping_call ev)
         (events (update demo_sem 1 1) (initial_state default_engine)).
Proof.
  eexists _, _. split; [reflexivity|]. split; [reflexivity|]. split.
  - apply (proj1 (proj2 (sleeping_off_by_default demo_sem))
             Common_extend demo_Render_create (HTMLElement 0) None _ _
             Common_extend_laws eq_refl eq_refl).
  - split; [reflexivity|].
    apply (proj2 (proj2 (sleeping_off_by_default demo_sem))). reflexivity.
Defined.

(** ** Engine.update when collaborators may write the engine *)

Section WritingFacts.

Context {H : Type}.
Variable act : Call -> Engine -> H -> Engine * H.
Hypothesis Hkeeps : keeps_tick_inputs act.

Lemma tick_inputs_eq e e0 :
  tick_inputs e = tick_inputs e0 ->
  enableSleeping e = enableSleeping e0
  /\ timeScale e = timeScale e0
  /\ constraintIterations e = constraintIterations e0
  /\ velocityIterations e = velocityIterations e0
  /\ positionIterations e = positionIterations e0
  /\ timestamp (timing e) = timestamp (timing e0)
  /\ broadphase e = broadphase e0.
Proof. unfold tick_inputs. intros [= ? ? ? ? ? ? ?]. done. Qed.

Lemma steady_ret {A} (a : A) e0 : steady (H:=H) (ret a) e0 a [].
Proof. intros s Hs. by exists s. Qed.

Lemma steady_log ev e0 : steady (H:=H) (log ev) e0 tt [ev].
Proof. intros s Hs. by exists s. Qed.

Lemma steady_gets {A} (f : @State H -> A) e0 v :
  (forall s, tick_inputs (eng s) = tick_inputs e0 -> f s = v) ->
  steady (gets f) e0 v [].
Proof. intros Hf s Hs. exists s. unfold gets. by rewrite (Hf s Hs). Qed.

Lemma steady_bind {A B} (m : M A) (k : A -> M B) e0 a b t1 t2 :
  steady (H:=H) m e0 a t1 -> steady (k a) e0 b t2 ->
  steady (bind m k) e0 b (t1 ++ t2).
Proof.
  intros Hm Hk s Hs.
  destruct (Hm s Hs) as (s1 & Hrun1 & Hs1 & Hl1).
  destruct (Hk s1 Hs1) as (s2 & Hrun2 & Hs2 & Hl2).
  exists s2. unfold bind. rewrite Hrun1, Hrun2.
  split; [done|]. split; [done|congruence].
Qed.

Lemma steady_call c e0 : steady (call_writing act c) e0 tt [Invoke c].
Proof.
  intros s Hs. unfold call_writing.
  pose proof (Hkeeps c (eng s) (heap s)) as Hk.
  destruct (act c (eng s) (heap s)) as [e h]. cbn in Hk.
  eexists. split; [reflexivity|]. cbn. split; [congruence|done].
Qed.

Lemma steady_when (b : bool) (m : M unit) e0 t :
  steady (H:=H) m e0 tt t -> steady (when b m) e0 tt (if b then t else []).
Proof. destruct b; [done|]. intros _. apply steady_ret. Qed.

Lemma steady_for fuel i (bound : Engine -> Z) c e0 :
  (forall e, tick_inputs e = tick_inputs e0 -> bound e = bound e0) ->
  (Z.to_nat (bound e0 - i) <= fuel)%nat ->
  steady (for_reading fuel i bound (call_writing act c)) e0 true
    (replicate (Z.to_nat (bound e0 - i)) (Invoke c)).
Proof.
  intros Hbound. revert i.
  induction fuel as [|fuel IH]; intros i Hfuel s Hs.
  - cbn. rewrite (Hbound _ Hs).
    destruct (i <? bound e0)%Z eqn:Hlt.
    + apply Z.ltb_lt in Hlt. lia.
    + apply Z.ltb_ge in Hlt.
      replace (Z.to_nat (bound e0 - i)) with 0%nat by lia. by exists s.
  - cbn [for_reading]. rewrite (Hbound _ Hs).
    destruct (i <? bound e0)%Z eqn:Hlt.
    + apply Z.ltb_lt in Hlt.
      replace (Z.to_nat (bound e0 - i))
        with (S (Z.to_nat (bound e0 - (i + 1)))) by lia.
      apply (steady_bind (call_writing act c)
               (fun _ => for_reading fuel (i + 1) bound (call_writing act c))
               e0 tt true [Invoke c]); [apply steady_call| |done].
      apply IH. lia.
    + apply Z.ltb_ge in Hlt.
      replace (Z.to_nat (bound e0 - i)) with 0%nat by lia. by exists s.
Qed.

Lemma steady_and_then (loop rest : M bool) e0 t1 t2 :
  steady (H:=H) loop e0 true t1 -> steady rest e0 true t2 ->
  steady (and_then loop rest) e0 true (t1 ++ t2).
Proof. intros Hloop Hrest. by apply (steady_bind loop _ e0 true true). Qed.

Lemma steady_trace {A} (m : @M H A) e0 a t t' :
  steady m e0 a t -> t = t' -> steady m e0 a t'.
Proof. by intros Hm <-. Qed.

Lemma broadphase_entry_current b :
  broadphase_entry (current b) b = broadphase_current b.
Proof. unfold broadphase_entry, broadphase_current. by destruct (current b). Qed.

Lemma steady_controller (oc : option Controller) e0 :
  steady
    match oc with
    | Some c =>
        bind (call_writing act (Controller_update c))
          (fun _ => ret instance_pairsList)
    | None => ret world_bodies
    end
    e0
    match oc with Some _ => instance_pairsList | None => world_bodies end
    match oc with Some c => [Invoke (Controller_update c)] | None => [] end.
Proof.
  destruct oc as [c|]; [|apply steady_ret].
  apply (steady_bind (call_writing act (Controller_update c))
           (fun _ => ret instance_pairsList) e0 tt instance_pairsList
           [Invoke (Controller_update c)] []);
    [apply steady_call|apply steady_ret].
Qed.

Ltac read_input :=
  let s := fresh "s" in
  let Hs := fresh "Hs" in
  intros s Hs;
  let H1 := fresh in let H2 := fresh in let H3 := fresh in
  let H4 := fresh in let H5 := fresh in let H6 := fresh in
  let H7 := fresh in
  destruct (tick_inputs_eq _ _ Hs) as (H1 & H2 & H3 & H4 & H5 & H6 & H7);
  rewrite ?H1, ?H2, ?H3, ?H4, ?H5, ?H6, ?H7;
  reflexivity.

Ltac steady_step :=
  first
    [ apply steady_call
    | apply steady_log
    | apply steady_ret
    | apply steady_when; apply steady_call
    | eapply steady_gets; read_input ].

Lemma update_writing_steady fuel delta correction e0 :
  (Z.to_nat (constraintIterations e0) <= fuel)%nat ->
  (Z.to_nat (velocityIterations e0) <= fuel)%nat ->
  (Z.to_nat (positionIterations e0) <= fuel)%nat ->
  steady (update_writing act fuel delta correction) e0 true
    (update_events e0 delta correction).
Proof.
  intros Hc Hv Hp. unfold update_writing.
  eapply steady_trace.
  - do 9 (eapply steady_bind; [steady_step|]; cbn beta).
    apply steady_and_then;
      [apply steady_for; [read_input|by rewrite Z.sub_0_r]|].
    eapply steady_bind; [steady_step|]; cbn beta.
    rewrite broadphase_entry_current.
    eapply steady_bind; [apply steady_controller|].
    cbn beta.
    do 8 (eapply steady_bind; [steady_step|]; cbn beta).
    apply steady_and_then;
      [apply steady_for; [read_input|by rewrite Z.sub_0_r]|].
    apply steady_and_then;
      [apply steady_for; [read_input|by rewrite Z.sub_0_r]|].
    do 4 (eapply steady_bind; [steady_step|]; cbn beta).
    apply steady_ret.
  - rewrite broadphase_entry_current, !Z.sub_0_r.
    unfold update_events, update_calls.
    destruct (enableSleeping e0),
             (controller (broadphase_current (broadphase e0)));
      rewrite !fmap_app, !fmap_replicate; cbn [fmap list_fmap app];
      flatten_trace; reflexivity.
Qed.

(** X3: provided no collaborator call writes what the tick reads of the
    engine (enableSleeping, timeScale, the three iteration counts,
    timing.timestamp and the broadphase), Engine.update returns, and its
    calls are exactly those the engine on entry, delta and correction fix,
    in the order of the program: whatever the collaborators do to the
    world, to the pairs and to the rest of the engine, the tick takes no
    other path.  What the tick reads is on return as it was on entry. *)
Theorem tick_calls_fixed_by_inputs fuel delta correction (s : @State H) :
  (Z.to_nat (constraintIterations (eng s)) <= fuel)%nat ->
  (Z.to_nat (velocityIterations (eng s)) <= fuel)%nat ->
  (Z.to_nat (positionIterations (eng s)) <= fuel)%nat ->
  exists s',
    update_writing act fuel delta correction s
    = (true, s', update_events (eng s) delta correction)
    /\ tick_inputs (eng s') = tick_inputs (eng s)
    /\ loc s' = loc s.
Proof.
  intros Hc Hv Hp.
  exact (update_writing_steady fuel delta correction (eng s) Hc Hv Hp s
           eq_refl).
Qed.

End WritingFacts.

(** A tick of the default engine with a collaborator that disables the
    engine and rewrites fps and delta at every call. *)
Lemma tick_calls_fixed_by_inputs_witness :
  keeps_tick_inputs meddling
  /\ exists s',
       update_writing meddling 6 1 1 (initial_state default_engine)
       = (true, s', update_events default_engine 1 1)
       /\ tick_inputs (eng s') = tick_inputs default_engine
       /\ enabled (eng s') = false.
Proof.
  assert (Hkeeps : keeps_tick_inputs meddling) by (intros c e h; reflexivity).
  split; [exact Hkeeps|].
  destruct (tick_calls_fixed_by_inputs meddling Hkeeps 6 1 1
              (initial_state default_engine))
    as (s' & Hrun & Hinputs & _); [vm_compute; lia..|].
  exists s'. split; [exact Hrun|]. split; [exact Hinputs|].
  assert (Hs' : s' = result_state (update_writing meddling 6 1 1)
                       (initial_state default_engine))
    by (unfold result_state; by rewrite Hrun).
  rewrite Hs'. reflexivity.
Defined.

(** ** Witnesses of the further properties *)

Lemma no_collisions_no_events_witness :
  _triggerCollisionEvents demo_sem no_pairs no_pairs no_pairs
    (initial_state default_engine)
  = (tt, initial_state default_engine, []).
Proof.
  apply (no_collisions_no_events demo_sem no_pairs no_pairs no_pairs
           (initial_state default_engine)); reflexivity.
Defined.

(** A frame at 20 ms of the default engine renders the world once. *)
Lemma frame_sequence_witness :
  enabled (eng (initial_state default_engine)) = true
  /\ ~ (delta (timing (eng (initial_state default_engine))) == 0)%Q
  /\ occurrences Render_world
       (events (demo_render (Some 20%Q)) (initial_state default_engine))
     = 1%nat.
Proof.
  assert (Hdelta : ~ (delta (timing (eng (initial_state default_engine))) == 0)%Q)
    by (intros Hz; vm_compute in Hz; discriminate Hz).
  split; [reflexivity|]. split; [exact Hdelta|].
  destruct (frame_sequence demo_sem demo_collisionStart demo_collisionActive
              demo_collisionEnd demo_mouse demo_mouse demo_mouse (Some 20%Q)
              (initial_state default_engine) eq_refl Hdelta)
    as (collisions & mice & _ & _ & _ & Hrender).
  exact Hrender.
Defined.

(** Three frames of the default engine, disabled. *)
Lemma disabled_run_idles_witness :
  enabled (eng (initial_state disabled_engine)) = false
  /\ events (demo_run [16%Q; 33%Q]) (initial_state disabled_engine)
     = [RequestAnimationFrame; RequestAnimationFrame; RequestAnimationFrame]
  /\ eng (result_state (demo_run [16%Q; 33%Q]) (initial_state disabled_engine))
     = disabled_engine
  /\ heap (result_state (demo_run [16%Q; 33%Q]) (initial_state disabled_engine))
     = 0%nat.
Proof.
  split; [reflexivity|].
  apply (disabled_run_idles demo_sem demo_collisionStart demo_collisionActive
           demo_collisionEnd demo_mouse demo_mouse demo_mouse [16%Q; 33%Q]
           (initial_state disabled_engine)).
  reflexivity.
Defined.

(** Three frames of the default engine. *)
Lemma run_corrections_chain_witness :
  exists deltas,
    length deltas = 3%nat
    /\ update_entries (events (demo_run [16%Q; 33%Q]) (initial_state default_engine))
       = ratio_chain _delta deltas.
Proof.
  destruct (run_corrections_chain demo_sem demo_collisionStart
              demo_collisionActive demo_collisionEnd demo_mouse demo_mouse
              demo_mouse [16%Q; 33%Q] (initial_state default_engine))
    as (deltas & Hlen & Hchain & _); [reflexivity..|].
  exists deltas. split; [exact Hlen|exact Hchain].
Defined.

(** The first tick of a run of the default engine. *)
Lemma run_correction_bounded_witness :
  Enter_update _delta (_delta / _delta)
    ∈ events (demo_run [16%Q; 33%Q]) (initial_state default_engine)
  /\ ((deltaMin default_timing <= _delta)%Q
      /\ (_delta <= deltaMax default_timing)%Q)
  /\ (deltaMin default_timing / deltaMax default_timing <= _delta / _delta)%Q
  /\ (_delta / _delta <= deltaMax default_timing / deltaMin default_timing)%Q.
Proof.
  assert (Hin : Enter_update _delta (_delta / _delta)
    ∈ events (demo_run [16%Q; 33%Q]) (initial_state default_engine)).
  { vm_compute. do 3 apply list_elem_of_further. apply list_elem_of_here. }
  split; [exact Hin|].
  apply (run_correction_bounded demo_sem demo_collisionStart
           demo_collisionActive demo_collisionEnd demo_mouse demo_mouse
           demo_mouse [16%Q; 33%Q] (initial_state default_engine)
           _delta (_delta / _delta)%Q);
    [reflexivity|reflexivity|discriminate|discriminate|discriminate|exact Hin].
Defined.

Lemma run_leaves_filtered_delta_witness :
  enabled (eng (initial_state default_engine)) = true
  /\ deltaHistory
       (loc (result_state (demo_run [16%Q; 33%Q]) (initial_state default_engine)))
     = slice_last _deltaSampleSize
         (raw_deltas 0 [None; Some 16%Q; Some 33%Q])
  /\ delta
       (timing (eng (result_state (demo_run [16%Q; 33%Q])
                       (initial_state default_engine))))
     = limit_delta default_timing
         (Math_min (slice_last _deltaSampleSize
                      (raw_deltas 0 [None; Some 16%Q; Some 33%Q]))).
Proof.
  split; [reflexivity|].
  destruct (run_leaves_filtered_delta demo_sem demo_collisionStart
              demo_collisionActive demo_collisionEnd demo_mouse demo_mouse
              demo_mouse [16%Q; 33%Q] (initial_state default_engine) eq_refl)
    as (_ & Hhistory & Hdelta & _).
  split; [exact Hhistory|exact Hdelta].
Defined.

(** The direct call, frames at 16 and 33 ms, then a frame at 1000 ms. *)
Lemma run_fps_counter_witness :
  (fps (timing (eng (result_state (demo_run [16%Q; 33%Q])
                       (initial_state default_engine))))
   = _fps
   /\ frameCounter (loc (result_state (demo_run [16%Q; 33%Q])
                           (initial_state default_engine)))
      = 3%Z)
  /\ (fps (timing (eng (result_state (demo_run ([16%Q; 33%Q] ++ [1000%Q]))
                          (initial_state default_engine))))
      == inject_Z 4 * (1000 / 1000))%Q.
Proof.
  destruct (run_fps_counter demo_sem demo_collisionStart demo_collisionActive
              demo_collisionEnd demo_mouse demo_mouse demo_mouse
              [16%Q; 33%Q] 1000%Q (initial_state default_engine))
    as (Hbefore & Hfps & _).
  - reflexivity.
  - repeat constructor.
  - discriminate.
  - split; [exact Hbefore|exact Hfps].
Defined.

(** ** Engine.create: failure, wiring and re-creation *)

Lemma complete_ok Render_create element engine :
  is_Some (Obj.input engine) ->
  exists e dom, complete Render_create element engine = Ok (e, dom).
Proof.
  intros [input Hinput]. unfold complete. rewrite Hinput.
  destruct (Obj.render engine) as [r|]; [destruct (render_controller r)|];
    by eexists _, _.
Qed.

Lemma complete_throws Render_create element engine :
  Obj.input engine = None ->
  complete Render_create element engine = TypeError.
Proof.
  intros Hinput. unfold complete. rewrite Hinput.
  destruct (Obj.render engine) as [r|]; [destruct (render_controller r)|];
    done.
Qed.

(** X15: with a Common.extend that keeps the input of the defaults,
    Engine.create throws exactly when its first argument is neither an
    element nor an object, or is an object without an input property; given
    an element it always returns an engine, whatever the options. *)
Theorem create_throws_iff extend Render_create element options :
  extend_laws extend ->
  create extend Render_create element options = TypeError
  <-> element = Undefined
      \/ exists o, element = PlainObject o /\ Obj.input o = None.
Proof.
  intros Hlaws. unfold create. destruct element as [el|o|]; cbn [isElement].
  - split.
    + intros Hthrow.
      destruct (complete_ok Render_create (HTMLElement el)
                  (extend defaults options)) as (e & dom & Hok).
      * apply (extend_input _ Hlaws). by eexists.
      * congruence.
    + intros [Hu | (o & Ho & _)]; discriminate.
  - split.
    + intros Hthrow. right. exists o. split; [done|].
      destruct (Obj.input o) as [input|] eqn:Hinput; [|done].
      destruct (complete_ok Render_create (PlainObject o) o)
        as (e & dom & Hok); [by eexists|congruence].
    + intros [Hu | (o' & Ho & Hinput)]; [discriminate|].
      simplify_eq. by apply complete_throws.
  - split; [by left|done].
Qed.

Lemma complete_wiring Render_create element src e dom :
  complete Render_create element src = Ok (e, dom) ->
  exists r ms mc w,
    Obj.render e = Some r
    /\ Obj.input e = Some {| mouse := Some ms |}
    /\ Obj.mouseConstraint e = Some mc
    /\ Obj.world e = Some (World_addComposite w mc)
    /\ is_Some (Obj.metrics e)
    /\ is_Some (Obj.broadphase e)
    /\ (given_mouse src = None -> ms = Mouse_create (render_canvas r))
    /\ (Obj.mouseConstraint src = None -> mc = MouseConstraint_create ms)
    /\ (custom_render src -> Obj.render src = Some r /\ dom = [])
    /\ (forall d, d ∈ dom ->
        exists el, element = HTMLElement el
                   /\ d = appendChild el (render_canvas r)).
Proof.
  unfold complete, given_mouse, custom_render. intros Hcomplete.
  destruct (Obj.input src) as [input|]; [|by repeat case_match].
  destruct (Obj.render src) as [r0|] eqn:Hrender;
    [destruct (render_controller r0) eqn:Hcontroller|];
    simplify_eq; cbn;
    eexists _, _, _, _;
    (split; [reflexivity|]); (split; [reflexivity|]);
    (split; [reflexivity|]); (split; [reflexivity|]);
    (split; [by eexists|]); (split; [by eexists|]);
    (split; [by intros ->|]); (split; [by intros ->|]).
  - split; [intros _; split; [done|by destruct element]|].
    destruct element; by intros d Hd%elem_of_nil.
  - split; [intros (r & Hr & Hc); congruence|].
    destruct element as [el| |]; intros d Hd;
      [|by apply elem_of_nil in Hd..].
    apply list_elem_of_singleton in Hd. by exists el.
  - split; [intros (r & Hr & Hc); congruence|].
    destruct element as [el| |]; intros d Hd;
      [|by apply elem_of_nil in Hd..].
    apply list_elem_of_singleton in Hd. by exists el.
Qed.

(** [Engine.create()] and [Engine.create({})] throw; with an element the
    engine is returned. *)
Lemma create_throws_iff_witness :
  extend_laws Common_extend
  /\ create Common_extend demo_Render_create Undefined None = TypeError
  /\ create Common_extend demo_Render_create
       (PlainObject (set_world defaults None)) None <> TypeError.
Proof.
  split; [exact Common_extend_laws|]. split.
  - apply (create_throws_iff Common_extend demo_Render_create Undefined None
             Common_extend_laws).
    by left.
  - intros Hthrow.
    apply (create_throws_iff Common_extend demo_Render_create
             (PlainObject (set_world defaults None)) None
             Common_extend_laws) in Hthrow.
    destruct Hthrow as [Hu | (o & Ho & Hinput)]; [discriminate|].
    injection Ho as <-. discriminate.
Defined.

(** X16: in every engine Engine.create returns, the render, the metrics,
    the mouse, the mouse constraint, the world and the broadphase are
    present; the mouse constraint added to the world is the one stored in
    the engine; a mouse constraint the caller did not give is created on the
    mouse of the engine, and a mouse the caller did not give on the canvas
    of the render of the engine; a render that brings a controller is kept
    and nothing is appended; and the only thing ever appended to the
    element is the canvas of the render of the engine. *)
Theorem create_wiring extend Render_create element options e dom :
  create extend Render_create element options = Ok (e, dom) ->
  exists src r ms mc w,
    chosen extend element options = Some src
    /\ Obj.render e = Some r
    /\ Obj.input e = Some {| mouse := Some ms |}
    /\ Obj.mouseConstraint e = Some mc
    /\ Obj.world e = Some (World_addComposite w mc)
    /\ is_Some (Obj.metrics e)
    /\ is_Some (Obj.broadphase e)
    /\ (given_mouse src = None -> ms = Mouse_create (render_canvas r))
    /\ (Obj.mouseConstraint src = None -> mc = MouseConstraint_create ms)
    /\ (custom_render src -> Obj.render src = Some r /\ dom = [])
    /\ (forall d, d ∈ dom ->
        exists el, element = HTMLElement el
                   /\ d = appendChild el (render_canvas r)).
Proof.
  unfold create. intros Hcreate.
  destruct element as [el|o|]; cbn [isElement] in Hcreate; [| |discriminate].
  - exists (extend defaults options).
    destruct (complete_wiring _ _ _ _ _ Hcreate) as (r & ms & mc & w & Hw).
    by exists r, ms, mc, w.
  - exists o.
    destruct (complete_wiring _ _ _ _ _ Hcreate) as (r & ms & mc & w & Hw).
    by exists r, ms, mc, w.
Qed.

Lemma create_wiring_witness :
  exists r ms mc w,
    create Common_extend demo_Render_create (HTMLElement 0) None
    = Ok ({| Obj.enabled := Some true;
                Obj.positionIterations := Some 6;
                Obj.velocityIterations := Some 4;
                Obj.constraintIterations := Some 1;
                Obj.pairs := Obj.pairs defaults;
                Obj.enableSleeping := Some false;
                Obj.timeScale := Some 1%Q;
                Obj.input := Some {| mouse := Some ms |};
                Obj.events := Some [];
                Obj.timing := Some default_timing;
                Obj.render := Some r;
                Obj.world := Some (World_addComposite w mc);
                Obj.metrics := Some Metrics_create;
                Obj.mouseConstraint := Some mc;
                Obj.broadphase := Some default_broadphase |},
             [appendChild 0%nat (render_canvas r)])
    /\ ms = Mouse_create (render_canvas r)
    /\ mc = MouseConstraint_create ms.
Proof.
  eexists _, _, _, _. split; [reflexivity|].
  destruct (create_wiring Common_extend demo_Render_create (HTMLElement 0) None
              _ _ eq_refl)
    as (src & r & ms & mc & w & Hsrc & Hr & Hi & Hmc & _ & _ & _ & Hms' & Hmc' & _).
  cbn in Hsrc, Hr, Hi, Hmc. simplify_eq.
  split; [by apply Hms'|by apply Hmc'].
Defined.

(** X17: Engine.create given an engine it returned earlier, whose render
    has a controller, in place of the element: the options are ignored,
    nothing is appended, and the engine comes back as it was but for the
    world, which is created anew from the old one and has the mouse
    constraint of the engine added again. *)
Theorem create_again extend Render_create element options e dom options' :
  create extend Render_create element options = Ok (e, dom) ->
  custom_render e ->
  exists w mc,
    Obj.world e = Some w
    /\ Obj.mouseConstraint e = Some mc
    /\ create extend Render_create (PlainObject e) options'
       = Ok (set_world e (Some (World_addComposite (World_create_from w) mc)),
             []).
Proof.
  unfold create. intros Hcreate (r & Hr & Hcontroller).
  assert (Hcomplete : exists el src,
    complete Render_create el src = Ok (e, dom)).
  { destruct element as [el|o|]; cbn [isElement] in Hcreate;
      [by eexists _, _|by eexists _, _|discriminate]. }
  clear Hcreate. destruct Hcomplete as (el & src & Hcomplete).
  unfold complete in Hcomplete.
  destruct (Obj.input src) as [input|]; [|by repeat case_match].
  cbn [isElement].
  destruct (Obj.render src) as [r0|];
    [destruct (render_controller r0)|];
    simplify_eq; cbn in Hr; simplify_eq;
    eexists _, _; (split; [reflexivity|]); (split; [reflexivity|]);
    unfold complete, set_world; cbn; by rewrite Hcontroller.
Qed.

(** [Engine.create(Engine.create(element))]. *)
Lemma create_again_witness :
  exists e dom w mc,
    create Common_extend demo_Render_create (HTMLElement 0) None = Ok (e, dom)
    /\ Obj.world e = Some w
    /\ Obj.mouseConstraint e = Some mc
    /\ create Common_extend demo_Render_create (PlainObject e) None
       = Ok (set_world e (Some (World_addComposite (World_create_from w) mc)),
             []).
Proof.
  eexists _, _.
  destruct (create_again Common_extend demo_Render_create (HTMLElement 0) None
              _ _ None eq_refl)
    as (w & mc & Hw & Hmc & Hagain).
  - by eexists.
  - exists w, mc. split; [reflexivity|]. split; [exact Hw|].
    split; [exact Hmc|exact Hagain].
Defined.

(** ** Engine.clear *)

(** X18: Engine.clear on an engine Engine.create returned always finds the
    world, the mouse constraint and the broadphase, so that it returns
    whenever the engine has pairs.  It empties pairs.table and pairs.list and
    leaves the three collision lists as they are; it adds the mouse
    constraint to the world, where Engine.create had added it already; and
    it changes nothing else of the engine.  On the broadphase the engine is
    created with by default it clears the grid and then forces its update
    over the bodies of the world. *)
Theorem clear_after_create extend Render_create element options e dom p :
  create extend Render_create element options = Ok (e, dom) ->
  Obj.pairs e = Some p ->
  exists w0 mc b,
    Obj.world e = Some (World_addComposite w0 mc)
    /\ Obj.mouseConstraint e = Some mc
    /\ Obj.broadphase e = Some b
    /\ let world := World_addComposite (World_addComposite w0 mc) mc in
       clear e
       = Returns (set_world (set_pairs e (Some (emptied p))) (Some world))
           (clear_broadphase b world)
       /\ (forall src, chosen extend element options = Some src ->
           Obj.broadphase src = None ->
           clear_broadphase b world
           = [Grid_clear; Controller_update_forced Grid world]).
Proof.
  unfold create. intros Hcreate Hpairs.
  assert (Hcomplete : exists src,
    chosen extend element options = Some src
    /\ complete Render_create element src = Ok (e, dom)).
  { destruct element as [el|o|]; cbn [isElement] in Hcreate;
      [by eexists|by eexists|discriminate]. }
  clear Hcreate. destruct Hcomplete as (src & Hsrc & Hcomplete).
  unfold complete in Hcomplete.
  destruct (Obj.input src) as [input|]; [|by repeat case_match].
  destruct (Obj.render src) as [r0|];
    [destruct (render_controller r0)|];
    simplify_eq; cbn in Hpairs;
    eexists _, _, _;
    (split; [reflexivity|]); (split; [reflexivity|]); (split; [reflexivity|]);
    cbn zeta; unfold clear; cbn; rewrite Hpairs;
    (split; [reflexivity|]);
    intros src' Hsrc' Hb; rewrite Hsrc in Hsrc'; simplify_eq;
    by rewrite Hb.
Qed.

(** [Engine.clear(Engine.create(element))]. *)
Lemma clear_after_create_witness :
  exists e dom e' world,
    create Common_extend demo_Render_create (HTMLElement 0) None = Ok (e, dom)
    /\ clear e = Returns e' [Grid_clear; Controller_update_forced Grid world]
    /\ Obj.world e' = Some world.
Proof.
  destruct (clear_after_create Common_extend demo_Render_create (HTMLElement 0)
              None _ _ _ eq_refl eq_refl)
    as (w0 & mc & b & Hw & Hmc & Hb & Hclear & Hdefault).
  eexists _, _, _, _. split; [reflexivity|].
  rewrite <- (Hdefault _ eq_refl eq_refl). split; [exact Hclear|reflexivity].
Defined.

(** X19: when Engine.clear throws.  Without pairs it throws at once,
    whatever else the engine has, and the engine is as before.  On an engine
    with a world and a mouse constraint it throws in one more case only:
    with pairs but without broadphase, after it has emptied the pairs and
    added the mouse constraint to the world, so that the engine is left
    cleared halfway.  (Without world or mouse constraint the call hands
    undefined to World.addComposite, and what follows hangs on it.  A
    broadphase, when present, is one whose current key names one of its
    entries and whose controller, if any, has an update.) *)
Theorem clear_throws_iff e :
  (Obj.pairs e = None -> clear e = Throws e)
  /\ (forall w mc e',
      Obj.world e = Some w ->
      Obj.mouseConstraint e = Some mc ->
      clear e = Throws e'
      <-> (Obj.pairs e = None /\ e' = e)
          \/ exists p,
               Obj.pairs e = Some p
               /\ Obj.broadphase e = None
               /\ e' = set_world (set_pairs e (Some (emptied p)))
                         (Some (World_addComposite w mc))).
Proof.
  unfold clear. split.
  - by intros ->.
  - intros w mc e' Hw Hmc. split.
    + destruct (Obj.pairs e) as [p|] eqn:Hp; cbn.
      * rewrite Hw, Hmc.
        destruct (Obj.broadphase e) as [b|] eqn:Hb; [discriminate|].
        intros [= <-]. right. by exists p.
      * intros [= <-]. by left.
    + intros [[-> ->] | (p & -> & Hb & ->)]; [done|].
      cbn. by rewrite Hw, Hmc, Hb.
Qed.

(** ** Engine.merge *)

Lemma renumber_lookup bodies world i body :
  bodies world !! i = Some body ->
  renumber bodies world !! (2 * i)%nat = Some (Sleeping_set body false)
  /\ renumber bodies world !! (2 * i + 1)%nat = Some (Body_nextId body).
Proof.
  unfold renumber. generalize (bodies world). intros l. revert i.
  induction l as [|b l IH]; intros i; [done|].
  destruct i as [|i]; cbn.
  - by intros [= ->].
  - intros Hi. destruct (IH i Hi) as [IH1 IH2].
    replace (i + S (i + 0))%nat with (S (2 * i)) by lia.
    replace (i + S (i + 0) + 1)%nat with (S (2 * i + 1)) by lia.
    done.
Qed.

Lemma renumber_length bodies world :
  length (renumber bodies world) = (2 * length (bodies world))%nat.
Proof.
  unfold renumber. generalize (bodies world). intros l.
  induction l as [|b l IH]; [done|]. cbn in *. rewrite IH. lia.
Qed.

Lemma merge_returns extend bodies engineA engineB engineA' engineB' calls :
  merge extend bodies engineA engineB = Returns (engineA', engineB') calls ->
  forall w, Obj.world engineB = Some w ->
  exists p mc b,
    Obj.pairs (extend engineA (Some engineB)) = Some p
    /\ Obj.mouseConstraint (extend engineA (Some engineB)) = Some mc
    /\ Obj.broadphase (extend engineA (Some engineB)) = Some b
    /\ let world := World_addComposite w mc in
       engineA'
       = set_world (set_pairs (extend engineA (Some engineB)) (Some (emptied p)))
           (Some world)
       /\ engineB' = set_world engineB (Some world)
       /\ calls
          = clear_broadphase b world ++ renumber bodies world
            ++ rebuild_grid b world.
Proof.
  unfold merge, clear. intros Hmerge w Hw. rewrite Hw in Hmerge.
  cbn in Hmerge.
  destruct (Obj.pairs (extend engineA (Some engineB))) as [p|] eqn:Hp;
    cbn in Hmerge; [|discriminate].
  destruct (Obj.mouseConstraint (extend engineA (Some engineB))) as [mc|] eqn:Hmc;
    cbn in Hmerge; [|discriminate].
  destruct (Obj.broadphase (extend engineA (Some engineB))) as [b|] eqn:Hb;
    cbn in Hmerge; rewrite ?Hb in Hmerge; [|discriminate].
  simplify_eq. exists p, mc, b.
  split; [done|]. split; [done|]. split; [done|]. cbn zeta.
  split; [reflexivity|]. split; reflexivity.
Qed.

(** X20: what Engine.merge leaves.  When engineB has no world, engineA is
    extended by engineB and nothing else is done.  When it has one, engineA
    and engineB hold the same world afterwards, the one of engineB with the
    mouse constraint of the extended engineA added; the pairs table and list
    of engineA are empty; and nothing else of engineB has changed. *)
Theorem merge_shares_world extend bodies engineA engineB engineA' engineB' calls :
  merge extend bodies engineA engineB = Returns (engineA', engineB') calls ->
  (Obj.world engineB = None ->
   engineA' = extend engineA (Some engineB) /\ engineB' = engineB /\ calls = [])
  /\ (forall w, Obj.world engineB = Some w ->
      exists p mc,
        Obj.pairs (extend engineA (Some engineB)) = Some p
        /\ Obj.mouseConstraint engineA' = Some mc
        /\ Obj.world engineA' = Some (World_addComposite w mc)
        /\ Obj.world engineB' = Obj.world engineA'
        /\ Obj.pairs engineA' = Some (emptied p)
        /\ set_world engineB' (Some w) = engineB).
Proof.
  intros Hmerge. split.
  - intros Hnone. unfold merge in Hmerge. rewrite Hnone in Hmerge.
    by simplify_eq.
  - intros w Hw.
    destruct (merge_returns _ _ _ _ _ _ _ Hmerge w Hw)
      as (p & mc & b & Hp & Hmc & Hb & HA & HB & _).
    exists p, mc. subst engineA' engineB'. cbn.
    repeat split; try done.
    destruct engineB. cbn in Hw. by subst.
Qed.

(** X21: the calls of Engine.merge when engineB has a world.  Every body of
    the merged world is woken and then given a new id, in the order of the
    world.  With the grid as controller the grid is cleared and updated
    twice, by Engine.clear before the bodies are renumbered and once more
    after; a controller other than the grid is updated before the
    renumbering only; without controller only the bodies are handled. *)
Theorem merge_renumbers_bodies extend bodies engineA engineB engineA' engineB'
    calls w :
  merge extend bodies engineA engineB = Returns (engineA', engineB') calls ->
  Obj.world engineB = Some w ->
  exists world b,
    Obj.world engineA' = Some world
    /\ Obj.broadphase engineA' = Some b
    /\ calls
       = match controller (broadphase_current b) with
         | Some Grid =>
             [Grid_clear; Controller_update_forced Grid world]
             ++ renumber bodies world
             ++ [Grid_clear; Controller_update_forced Grid world]
         | Some c => Controller_update_forced c world :: renumber bodies world
         | None => renumber bodies world
         end
    /\ length (renumber bodies world) = (2 * length (bodies world))%nat
    /\ (forall i body, bodies world !! i = Some body ->
        renumber bodies world !! (2 * i)%nat = Some (Sleeping_set body false)
        /\ renumber bodies world !! (2 * i + 1)%nat = Some (Body_nextId body)).
Proof.
  intros Hmerge Hw.
  destruct (merge_returns _ _ _ _ _ _ _ Hmerge w Hw)
    as (p & mc & b & Hp & Hmc & Hb & HA & HB & Hcalls).
  cbn zeta in *. exists (World_addComposite w mc), b.
  subst engineA'. cbn. split; [done|]. split; [done|].
  split; [|split; [apply renumber_length|apply renumber_lookup]].
  rewrite Hcalls. unfold clear_broadphase, rebuild_grid.
  destruct (controller (broadphase_current b)) as [[|id]|]; cbn;
    by rewrite ?app_nil_r.
Qed.

(** Merging an object with a world into a created engine. *)
Lemma merge_shares_world_witness :
  exists engineA' engineB' calls,
    merge Common_extend demo_bodies created_engine demo_source
    = Returns (engineA', engineB') calls
    /\ Obj.world engineB' = Obj.world engineA'
    /\ set_world engineB' (Some (World_given 1)) = demo_source.
Proof.
  eexists _, _, _. split; [reflexivity|].
  destruct (merge_shares_world Common_extend demo_bodies created_engine
              demo_source _ _ _ eq_refl) as [_ Hshared].
  destruct (Hshared (World_given 1) eq_refl)
    as (p & mc & _ & _ & _ & Hworld & _ & Hrest).
  split; [exact Hworld|exact Hrest].
Defined.

Lemma merge_renumbers_bodies_witness :
  exists engineA' engineB' calls world,
    merge Common_extend demo_bodies created_engine demo_source
    = Returns (engineA', engineB') calls
    /\ Obj.world engineA' = Some world
    /\ renumber demo_bodies world !! 2%nat = Some (Sleeping_set 2%nat false)
    /\ renumber demo_bodies world !! 3%nat = Some (Body_nextId 2%nat).
Proof.
  eexists _, _, _.
  destruct (merge_renumbers_bodies Common_extend demo_bodies created_engine
              demo_source _ _ _ (World_given 1) eq_refl eq_refl)
    as (world & b & Hworld & _ & _ & _ & Hbodies).
  exists world. split; [reflexivity|]. split; [exact Hworld|].
  exact (Hbodies 1%nat 2%nat eq_refl).
Defined.
